(** * InstaAnalyzer: heuristic inference engine and geo-resolution engine

    A shallow embedding of the rule-based classifiers of
    [analyze_insta_data.py] and of the geo-resolution pass of
    [location_processor.py], with the properties their specification states.

    Modelling conventions.
    - Python [str] values are [string]s of 8-bit characters; the regular
      expression classes [\w], [\d], [\s] and [str.lower] are the ASCII ones.
    - Python [int]s are [Z]; the floats of the scoring code are exact
      rationals ([Q]); the floats of the geographic code are reals ([R]).
    - Python [dict]s keep insertion order and are association lists.
    - [None] is [option]'s [None]; a raised exception is an [outcome]. *)

From Stdlib Require Import List Bool Arith ZArith QArith Qabs Lia Lra Lqa.
From Stdlib Require Import Ascii String.
From Stdlib Require Import Reals Ratan.
From Stdlib Require Import Sorted Permutation.
Import ListNotations.

Set Warnings "-register-all".

Open Scope string_scope.
Open Scope list_scope.

(* ================================================================== *)
(** * Part I: definitions                                              *)
(* ================================================================== *)

(** ** Characters and strings *)

Definition code (c : ascii) : nat := nat_of_ascii c.

Definition between (lo hi : nat) (c : ascii) : bool :=
  (lo <=? code c)%nat && (code c <=? hi)%nat.

Definition is_digit (c : ascii) : bool := between 48 57 c.
Definition is_upper (c : ascii) : bool := between 65 90 c.
Definition is_lower (c : ascii) : bool := between 97 122 c.
Definition is_alpha (c : ascii) : bool := is_upper c || is_lower c.

(** [\w]: letters, digits and the underscore. *)
Definition is_word (c : ascii) : bool :=
  is_alpha c || is_digit c || (code c =? 95)%nat.

(** [\s]: blank, tab, line feed, vertical tab, form feed, carriage return
    and the four ASCII separators that [str.isspace] accepts. *)
Definition is_space (c : ascii) : bool :=
  (code c =? 32)%nat || between 9 13 c || between 28 31 c.

Definition lower_char (c : ascii) : ascii :=
  if is_upper c then ascii_of_nat (code c + 32) else c.

(** [str.lower()] *)
Fixpoint lower (s : string) : string :=
  match s with
  | EmptyString => EmptyString
  | String c s' => String (lower_char c) (lower s')
  end.

(** [str.isupper()]: at least one cased character and no lower-case one. *)
Fixpoint has_upper (s : string) : bool :=
  match s with
  | EmptyString => false
  | String c s' => is_upper c || has_upper s'
  end.

Fixpoint has_lower (s : string) : bool :=
  match s with
  | EmptyString => false
  | String c s' => is_lower c || has_lower s'
  end.

Definition isupper (s : string) : bool := has_upper s && negb (has_lower s).

(** [needle in hay] on strings. *)
Fixpoint contains (needle hay : string) : bool :=
  String.prefix needle hay ||
  match hay with
  | EmptyString => false
  | String _ hay' => contains needle hay'
  end.

(** [x in xs] on a list (or set) of strings. *)
Definition mem (x : string) (xs : list string) : bool :=
  existsb (String.eqb x) xs.

(** Truthiness of a string and of an optional string. *)
Definition nonempty (s : string) : bool :=
  match s with EmptyString => false | _ => true end.

Definition truthy (o : option string) : bool :=
  match o with Some s => nonempty s | None => false end.

(** The first [n] characters of [s]. *)
Fixpoint take (n : nat) (s : string) : string :=
  match n, s with
  | S n', String c s' => String c (take n' s')
  | _, _ => EmptyString
  end.

(** [sep.join(parts)] *)
Fixpoint join (sep : string) (parts : list string) : string :=
  match parts with
  | [] => ""
  | [p] => p
  | p :: rest => p ++ sep ++ join sep rest
  end.

(** [s.split(sep)] for a non-empty separator: [cur] collects, reversed, the
    characters of the piece being read. *)
Fixpoint rev_string (acc s : string) : string :=
  match s with
  | EmptyString => acc
  | String c s' => rev_string (String c acc) s'
  end.

Fixpoint drop (n : nat) (s : string) : string :=
  match n, s with
  | S n', String _ s' => drop n' s'
  | _, _ => s
  end.

Fixpoint split_aux (fuel : nat) (sep cur s : string) : list string :=
  match fuel with
  | O => [rev_string "" cur]
  | S fuel' =>
      match s with
      | EmptyString => [rev_string "" cur]
      | String c s' =>
          if String.prefix sep s
          then rev_string "" cur :: split_aux fuel' sep "" (drop (String.length sep) s)
          else split_aux fuel' sep (String c cur) s'
      end
  end.

Definition split (sep s : string) : list string :=
  split_aux (S (String.length s)) sep "" s.

(** [s.split(sep, 1)]: at most one cut. *)
Fixpoint split1_aux (sep cur s : string) : list string :=
  match s with
  | EmptyString => [rev_string "" cur]
  | String c s' =>
      if String.prefix sep s
      then [rev_string "" cur; drop (String.length sep) s]
      else split1_aux sep (String c cur) s'
  end.

Definition split1 (sep s : string) : list string := split1_aux sep "" s.

(** [int(s)] on a string of decimal digits; [None] stands for [ValueError]. *)
Fixpoint int_aux (acc : Z) (s : string) : option Z :=
  match s with
  | EmptyString => Some acc
  | String c s' =>
      if is_digit c
      then int_aux (10 * acc + Z.of_nat (code c - 48)) s'
      else None
  end.

Definition int_of (s : string) : option Z :=
  match s with
  | EmptyString => None
  | _ => int_aux 0 s
  end.

(** ** Regular expressions

    The patterns of the source are run by a backtracking matcher with
    Python's priorities: the left branch of an alternation first, greedy
    repetition, the leftmost match. A pattern has at most one capture
    group. *)

Inductive regex : Type :=
| Eps : regex
| Cls (p : ascii -> bool) : regex
| Seq (r1 r2 : regex) : regex
| Alt (r1 r2 : regex) : regex
| Star (r : regex) : regex
| Grp (r : regex) : regex
| WordB : regex.

Definition Plus (r : regex) : regex := Seq r (Star r).
Definition Opt (r : regex) : regex := Alt r Eps.
Definition Chr (c : ascii) : regex := Cls (Ascii.eqb c).
(** A character under [re.IGNORECASE]. *)
Definition ChrI (c : ascii) : regex :=
  Cls (fun x => Ascii.eqb (lower_char x) (lower_char c)).

Fixpoint Lit (s : string) : regex :=
  match s with
  | EmptyString => Eps
  | String c s' => Seq (Chr c) (Lit s')
  end.

Fixpoint LitI (s : string) : regex :=
  match s with
  | EmptyString => Eps
  | String c s' => Seq (ChrI c) (LitI s')
  end.

Fixpoint Alts (rs : list regex) : regex :=
  match rs with
  | [] => Cls (fun _ => false)
  | [r] => r
  | r :: rs' => Alt r (Alts rs')
  end.

(** [r{lo,hi}] for the small bounds the source uses. *)
Fixpoint AtMost (n : nat) (r : regex) : regex :=
  match n with
  | O => Eps
  | S n' => Opt (Seq r (AtMost n' r))
  end.

Fixpoint Times (n : nat) (r : regex) : regex :=
  match n with
  | O => Eps
  | S n' => Seq r (Times n' r)
  end.

Definition Range (lo hi : nat) (r : regex) : regex :=
  Seq (Times lo r) (AtMost (hi - lo) r).

Definition word_of (o : option ascii) : bool :=
  match o with Some c => is_word c | None => false end.

Definition head_char (s : string) : option ascii :=
  match s with EmptyString => None | String c _ => Some c end.

(** The state of a match: the character before the current position (for
    [\b]), the text still to read, and the text of the capture group. *)
Record mstate : Type := MState {
  m_prev : option ascii;
  m_rest : string;
  m_cap : option string
}.

Section Matcher.
Context {A : Type}.

(** [run r st k]: match [r] from [st] and hand every way of matching it, in
    priority order, to the continuation [k] until one succeeds. *)
Fixpoint run (r : regex) (st : mstate) (k : mstate -> option A) : option A :=
  match r with
  | Eps => k st
  | Cls p =>
      match m_rest st with
      | String c s' => if p c then k (MState (Some c) s' (m_cap st)) else None
      | EmptyString => None
      end
  | Seq r1 r2 => run r1 st (fun st1 => run r2 st1 k)
  | Alt r1 r2 =>
      match run r1 st k with
      | Some a => Some a
      | None => run r2 st k
      end
  | Star r1 =>
      (fix loop (n : nat) (st0 : mstate) : option A :=
         match n with
         | O => k st0
         | S n' =>
             match run r1 st0 (fun st1 =>
                     if (String.length (m_rest st1) <? String.length (m_rest st0))%nat
                     then loop n' st1 else None) with
             | Some a => Some a
             | None => k st0
             end
         end) (String.length (m_rest st)) st
  | Grp r1 =>
      run r1 st (fun st1 =>
        k (MState (m_prev st1) (m_rest st1)
             (Some (take (String.length (m_rest st) - String.length (m_rest st1))
                         (m_rest st)))))
  | WordB =>
      if xorb (word_of (m_prev st)) (word_of (head_char (m_rest st)))
      then k st else None
  end.

End Matcher.

(** A match of [r] at the current position: the text left after it and the
    captured group. *)
Definition match_at (r : regex) (prev : option ascii) (s : string)
  : option mstate :=
  run r (MState prev s None) (fun st => Some st).

(** [re.search(r, s)] as a truth value. *)
Fixpoint search_from (r : regex) (prev : option ascii) (s : string) : bool :=
  match match_at r prev s with
  | Some _ => true
  | None =>
      match s with
      | EmptyString => false
      | String c s' => search_from r (Some c) s'
      end
  end.

Definition search (r : regex) (s : string) : bool := search_from r None s.

(** [re.findall(r, s)]: the capture group of every match, left to right and
    without overlap (the whole match when the pattern has no group). *)
Fixpoint findall_from (fuel : nat) (r : regex) (prev : option ascii)
  (s : string) : list string :=
  match fuel with
  | O => []
  | S fuel' =>
      let skip :=
        match s with
        | EmptyString => []
        | String c s' => findall_from fuel' r (Some c) s'
        end in
      match match_at r prev s with
      | Some st =>
          let whole := take (String.length s - String.length (m_rest st)) s in
          let item := match m_cap st with Some g => g | None => whole end in
          if (String.length (m_rest st) <? String.length s)%nat
          then item :: findall_from fuel' r (m_prev st) (m_rest st)
          else item :: skip
      | None => skip
      end
  end.

Definition findall (r : regex) (s : string) : list string :=
  findall_from (S (String.length s)) r None s.

Definition digit : regex := Cls is_digit.
Definition wordc : regex := Cls is_word.
Definition space : regex := Cls is_space.

(** ** Dictionaries

    A [dict] with string keys, in insertion order. *)

Definition dict (V : Type) : Type := list (string * V).

Fixpoint get {V : Type} (k : string) (d : dict V) : option V :=
  match d with
  | [] => None
  | (k', v) :: d' => if String.eqb k k' then Some v else get k d'
  end.

(** [d[k] = v]: the value is replaced where the key stands, a new key goes
    to the end. *)
Fixpoint set {V : Type} (k : string) (v : V) (d : dict V) : dict V :=
  match d with
  | [] => [(k, v)]
  | (k', v') :: d' =>
      if String.eqb k k' then (k', v) :: d' else (k', v') :: set k v d'
  end.

Definition has_key {V : Type} (k : string) (d : dict V) : bool :=
  match get k d with Some _ => true | None => false end.

Definition keys {V : Type} (d : dict V) : list string := map fst d.
Definition values {V : Type} (d : dict V) : list V := map snd d.

(** [d.get(k, 0)] *)
Definition get0 (k : string) (d : dict Z) : Z :=
  match get k d with Some v => v | None => 0%Z end.

(** ** Posts

    The fields of a post node that the classifiers read. An absent or null
    field is [None]; [like_count] and [comment_count] default to 0, and an
    absent, null or empty [coauthor_producers] is the empty list. *)

Record post : Type := Post {
  user_username : option string;        (* node.user.username *)
  caption_text : option string;         (* node.caption.text *)
  taken_at : option Z;                  (* node.taken_at, unix seconds *)
  like_count : Z;
  comment_count : Z;
  is_paid_partnership : option bool;
  owner_username : option string;       (* node.owner.username *)
  coauthor_producers : list (option string)  (* username of each coauthor *)
}.

(** [node.get('caption', {}).get('text', '')] *)
Definition caption_of (p : post) : string :=
  match caption_text p with Some s => s | None => "" end.

(** ** Text-signal extractors *)

Definition hashtag_pattern : regex := Seq (Chr "#") (Grp (Plus wordc)).

Definition extract_hashtags (text : string) : list string :=
  if nonempty text then findall hashtag_pattern text else [].


(** ** Niche classifier *)

Definition niche_categories : dict (list string) :=
  [ ("Fashion & Style", ["fashion"; "style"; "outfit"; "clothing"; "model"; "dress"; "accessories"; "fashionista"]);
    ("Beauty", ["makeup"; "skincare"; "beauty"; "cosmetics"; "haircare"; "nails"; "glam"; "makeupartist"]);
    ("Lifestyle", ["lifestyle"; "life"; "daily"; "routine"; "inspiration"; "motivation"]);
    ("Fitness", ["fitness"; "workout"; "gym"; "exercise"; "health"; "training"; "muscle"; "fit"]);
    ("Health", ["health"; "wellness"; "nutrition"; "diet"; "healthy"; "mindfulness"; "meditation"]);
    ("Food", ["food"; "cooking"; "recipe"; "chef"; "foodie"; "cuisine"; "baking"; "delicious"; "yummy"]);
    ("Travel", ["travel"; "wanderlust"; "adventure"; "explore"; "tourism"; "vacation"; "trip"; "journey"; "destination"]);
    ("Technology", ["technology"; "tech"; "gadget"; "device"; "software"; "app"; "smartphone"; "computer"]);
    ("Gaming", ["gaming"; "gamer"; "videogames"; "game"; "esports"; "playstation"; "xbox"; "nintendo"]);
    ("Entertainment", ["entertainment"; "movie"; "film"; "tv"; "television"; "cinema"; "streaming"]);
    ("Comedy", ["comedy"; "funny"; "humor"; "laugh"; "joke"; "prank"; "skit"]);
    ("Education", ["education"; "learning"; "school"; "knowledge"; "teach"; "study"; "student"; "lesson"]);
    ("Business", ["business"; "entrepreneur"; "marketing"; "startup"; "success"; "money"]);
    ("Finance", ["finance"; "investing"; "stocks"; "cryptocurrency"; "money"; "financial"; "wealth"]);
    ("Art & Design", ["art"; "artist"; "drawing"; "painting"; "creative"; "design"; "illustration"]);
    ("Music", ["music"; "musician"; "song"; "singer"; "artist"; "band"; "concert"]);
    ("Dance", ["dance"; "dancer"; "choreography"; "ballet"; "hiphop"]);
    ("Sports", ["sports"; "athlete"; "basketball"; "football"; "soccer"; "baseball"; "tennis"]);
    ("Pets & Animals", ["pets"; "dog"; "cat"; "animal"; "puppy"; "kitten"; "wildlife"]);
    ("Family & Parenting", ["family"; "parenting"; "mom"; "dad"; "children"; "kids"; "baby"]) ].

(** The hashtags of every caption, in order, duplicates kept. *)
Definition all_hashtags (posts : list post) : list string :=
  flat_map (fun p => extract_hashtags (caption_of p)) posts.

(** [hashtag_counts[tag.lower()] = hashtag_counts.get(tag.lower(), 0) + 1] *)
Definition count_tag (counts : dict Z) (tag : string) : dict Z :=
  set (lower tag) (get0 (lower tag) counts + 1)%Z counts.

Definition hashtag_counts (posts : list post) : dict Z :=
  fold_left count_tag (all_hashtags posts) [].

(** [any(keyword in tag for keyword in keywords)] *)
Definition any_keyword_in (keywords : list string) (tag : string) : bool :=
  existsb (fun keyword => contains keyword tag) keywords.

(** The inner loop: one hashtag with its count against every category. *)
Definition score_tag (scores : dict Z) (entry : string * Z) : dict Z :=
  fold_left
    (fun sc cat =>
       if any_keyword_in (snd cat) (fst entry)
       then set (fst cat) (get0 (fst cat) sc + snd entry)%Z sc
       else sc)
    niche_categories scores.

Definition niche_scores (posts : list post) : dict Z :=
  fold_left score_tag (hashtag_counts posts)
    (map (fun cat => (fst cat, 0%Z)) niche_categories).

Definition sumZ (l : list Z) : Z := fold_right Z.add 0%Z l.
Definition sumQ (l : list Q) : Q := fold_right Qplus 0%Q l.

(** [n / d] rounded to the nearest integer, ties to the even one
    (Python's [round]), for [d > 0]. *)
Definition round_half_even (n d : Z) : Z :=
  let q := (n / d)%Z in
  let r := (n mod d)%Z in
  if (2 * r <? d)%Z then q
  else if (d <? 2 * r)%Z then (q + 1)%Z
  else if Z.even q then q else (q + 1)%Z.

(** [round(x)] and [round(x, 1)] *)
Definition round0 (x : Q) : Z := round_half_even (Qnum x) (Zpos (Qden x)).
Definition round1 (x : Q) : Q := Qmake (round0 (x * 10)) 10.

(** [int(x)]: truncation towards zero. *)
Definition trunc (x : Q) : Z := Z.quot (Qnum x) (Zpos (Qden x)).

(** A stable sort by descending integer key ([sorted(..., reverse=True)]
    keeps the order of equal keys). *)
Fixpoint insert_desc {X : Type} (key : X -> Z) (x : X) (l : list X) : list X :=
  match l with
  | [] => [x]
  | y :: l' =>
      if (key y <=? key x)%Z then x :: y :: l'
      else y :: insert_desc key x l'
  end.

Definition sort_desc {X : Type} (key : X -> Z) (l : list X) : list X :=
  fold_right (insert_desc key) [] l.

Record niche_analysis_info : Type := NicheAnalysis {
  primary : option string;
  secondary : list string;
  distribution : dict Q;
  confidence_scores : dict Z
}.

Definition total_score (scores : dict Z) : Z :=
  let s := sumZ (values scores) in if (s =? 0)%Z then 1%Z else s.

(** [round(score / total_score * 100, 1)] for every category that scored. *)
Definition percentages (scores : dict Z) : dict Q :=
  let total := total_score scores in
  map (fun e => (fst e, round1 (inject_Z (snd e) / inject_Z total * 100)))
      (filter (fun e => (0 <? snd e)%Z) scores).

Definition identify_niche (posts : list post) : niche_analysis_info :=
  let scores := niche_scores posts in
  let significant_distribution :=
    filter (fun e => Qle_bool 2 (snd e)) (percentages scores) in
  let sorted_niches := sort_desc snd scores in
  let top_score := match sorted_niches with e :: _ => snd e | [] => 0%Z end in
  let max_score := if (0 <? top_score)%Z then top_score else 1%Z in
  {| primary :=
       match sorted_niches with
       | e :: _ => if (0 <? snd e)%Z then Some (fst e) else None
       | [] => None
       end;
     secondary :=
       map fst (filter (fun e => (0 <? snd e)%Z) (firstn 3 (tl sorted_niches)));
     distribution := significant_distribution;
     confidence_scores :=
       map (fun cat =>
              (fst cat,
               Z.min 100 (trunc (inject_Z (get0 (fst cat) scores)
                                 / inject_Z max_score * 100))))
           niche_categories |}.

(** ** Demographic classifier: age *)

Fixpoint Seqs (rs : list regex) : regex :=
  match rs with
  | [] => Eps
  | [r] => r
  | r :: rs' => Seq r (Seqs rs')
  end.

(** [(\d{1,2})] and [(\d{4})] *)
Definition age_digits : regex := Grp (Range 1 2 digit).
Definition year_digits : regex := Grp (Times 4 digit).

(** The direct age mentions, in the order they are tried (all under
    [re.IGNORECASE]). *)
Definition age_patterns : list regex :=
  [ (* (?:I am|I\'m)\s+(\d{1,2}) *)
    Seqs [Alt (LitI "I am") (LitI "I'm"); Plus space; age_digits];
    (* age\s*:?\s*(\d{1,2}) *)
    Seqs [LitI "age"; Star space; Opt (Chr ":"); Star space; age_digits];
    (* (\d{1,2})\s*(?:years|yrs)\s*old *)
    Seqs [age_digits; Star space; Alt (LitI "years") (LitI "yrs");
          Star space; LitI "old"];
    (* (\d{1,2})\s*y\.?o *)
    Seqs [age_digits; Star space; ChrI "y"; Opt (Chr "."); ChrI "o"] ].

Definition year_patterns : list regex :=
  [ (* born\s+in\s+(\d{4}) *)
    Seqs [LitI "born"; Plus space; LitI "in"; Plus space; year_digits];
    (* b\.\s*(\d{4}) *)
    Seqs [ChrI "b"; Chr "."; Star space; year_digits];
    (* est\.\s*(\d{4}) *)
    Seqs [LitI "est"; Chr "."; Star space; year_digits] ].

(** The age buckets, first match first. *)
Definition age_group_of (age : Z) : string :=
  if (age <? 18)%Z then "Under 18"
  else if (age <? 25)%Z then "18-24"
  else if (age <? 30)%Z then "25-29"
  else if (age <? 35)%Z then "25-34"
  else if (age <? 45)%Z then "35-44"
  else "45+".

(** The loop over [age_patterns]: the first match of each pattern in turn,
    accepted when it is a plausible age. *)
Fixpoint direct_age (patterns : list regex) (text : string)
  : option (Z * string) :=
  match patterns with
  | [] => None
  | pattern :: rest =>
      match findall pattern text with
      | m :: _ =>
          match int_of m with
          | Some age =>
              if (13 <=? age)%Z && (age <=? 100)%Z
              then Some (age, age_group_of age)
              else direct_age rest text
          | None => direct_age rest text
          end
      | [] => direct_age rest text
      end
  end.

(** The loop over [year_patterns]. *)
Fixpoint birth_year_age (current_year : Z) (patterns : list regex)
  (text : string) : option (Z * string) :=
  match patterns with
  | [] => None
  | pattern :: rest =>
      match findall pattern text with
      | m :: _ =>
          match int_of m with
          | Some year =>
              if (1920 <=? year)%Z && (year <=? current_year - 13)%Z
              then Some ((current_year - year)%Z,
                         age_group_of (current_year - year))
              else birth_year_age current_year rest text
          | None => birth_year_age current_year rest text
          end
      | [] => birth_year_age current_year rest text
      end
  end.

Definition newline : string := String (ascii_of_nat 10) "".

(** The life-stage keywords, line by line. *)
Fixpoint life_stage (lines : list string) : option string :=
  match lines with
  | [] => None
  | line :: rest =>
      if contains "college" (lower line) || contains "university" (lower line)
      then Some "18-24"
      else if contains "career" (lower line) || contains "job" (lower line)
      then Some "25-29"
      else life_stage rest
  end.

Definition extract_age (current_year : Z) (text : string)
  : option Z * option string :=
  if negb (nonempty text) then (None, None)
  else
    match direct_age age_patterns text with
    | Some (age, age_group) => (Some age, Some age_group)
    | None =>
        match birth_year_age current_year year_patterns text with
        | Some (age, age_group) => (Some age, Some age_group)
        | None =>
            match life_stage (split newline text) with
            | Some age_group => (None, Some age_group)
            | None => (None, Some "25-29")
            end
        end
    end.

(** ** Demographic classifier: gender *)

(** The reference tables read at start-up from [malenames.txt],
    [femalenames.txt] and [gendered_niches.json]. *)
Record config : Type := Config {
  MALE_NAMES : list string;
  FEMALE_NAMES : list string;
  female_dominated : list string;
  male_dominated : list string
}.

Inductive gender : Type := Female | Male.

Definition gender_eqb (g1 g2 : gender) : bool :=
  match g1, g2 with
  | Female, Female | Male, Male => true
  | _, _ => false
  end.

(** The female and male signs, as their UTF-8 bytes. *)
Definition female_sign : string :=
  String (ascii_of_nat 226) (String (ascii_of_nat 153) (String (ascii_of_nat 128) "")).
Definition male_sign : string :=
  String (ascii_of_nat 226) (String (ascii_of_nat 153) (String (ascii_of_nat 130) "")).

Definition female_indicators : list regex :=
  [ Seqs [WordB;
          Alts (map LitI ["she"; "her"; "woman"; "girl"; "female"; "mom";
                          "mother"; "wife"; "daughter"; "sister"]);
          WordB];
    Lit female_sign ].

Definition male_indicators : list regex :=
  [ Seqs [WordB;
          Alts (map LitI ["he"; "him"; "man"; "boy"; "male"; "dad";
                          "father"; "husband"; "son"; "brother"]);
          WordB];
    Lit male_sign ].

(** [sum(len(re.findall(pattern, text)) for pattern in patterns)] *)
Definition count_matches (patterns : list regex) (text : string) : Z :=
  sumZ (map (fun pattern => Z.of_nat (List.length (findall pattern text)))
            patterns).

(** The matches in the bio (when it is not empty) and in every non-empty
    caption. *)
Definition indicator_matches (patterns : list regex) (bio : string)
  (captions : list string) : Z :=
  ((if nonempty bio then count_matches patterns bio else 0)
   + sumZ (map (fun caption =>
                  if nonempty caption then count_matches patterns caption
                  else 0) captions))%Z.

Definition name_score (cfg : config) (first_name : option string) : Q :=
  match first_name with
  | Some name =>
      if nonempty name then
        if mem (lower name) (MALE_NAMES cfg) then -1
        else if mem (lower name) (FEMALE_NAMES cfg) then 1
        else 0
      else 0
  | None => 0
  end.

Definition content_score (bio : string) (captions : list string) : Q :=
  let female_matches := indicator_matches female_indicators bio captions in
  let male_matches := indicator_matches male_indicators bio captions in
  let total_matches := (female_matches + male_matches)%Z in
  if (0 <? total_matches)%Z
  then inject_Z (female_matches - male_matches) / inject_Z total_matches
  else 0.

(** [niche and any(keyword in niche.lower() for keyword in keywords)] *)
Definition niche_in (keywords : list string) (niche : option string) : bool :=
  match niche with
  | Some n => nonempty n && any_keyword_in keywords (lower n)
  | None => false
  end.

Definition niche_score (cfg : config) (niche : option string) : Q :=
  if niche_in (female_dominated cfg) niche then 8 # 10
  else if niche_in (male_dominated cfg) niche then - (8 # 10)
  else 0.

Definition final_score (cfg : config) (bio : string) (captions : list string)
  (first_name niche : option string) : Q :=
  (5 # 10) * name_score cfg first_name
  + (35 # 100) * content_score bio captions
  + (15 # 100) * niche_score cfg niche.

Definition name_in (names : list string) (first_name : option string) : bool :=
  match first_name with
  | Some name => nonempty name && mem (lower name) names
  | None => false
  end.

(** The fallback chain for a score within the band around zero. *)
Definition gender_fallback (cfg : config) (first_name niche : option string)
  : gender * Q :=
  if niche_in (female_dominated cfg) niche then (Female, 6 # 10)
  else if niche_in (male_dominated cfg) niche then (Male, 6 # 10)
  else if name_in (MALE_NAMES cfg) first_name then (Male, 7 # 10)
  else if name_in (FEMALE_NAMES cfg) first_name then (Female, 7 # 10)
  else (Female, 5 # 10).

Definition Qltb (x y : Q) : bool := negb (Qle_bool y x).

Definition detect_gender_from_text (cfg : config) (bio : string)
  (captions : list string) (first_name niche : option string) : gender * Q :=
  let score := final_score cfg bio captions first_name niche in
  if Qltb (1 # 10) score then (Female, Qabs score)
  else if Qltb score (- (1 # 10)) then (Male, Qabs score)
  else gender_fallback cfg first_name niche.

(** The correction that follows the call in [analyze_user_info]: a first
    name "chris" that the chain classified Female. *)
Definition gender_decision (cfg : config) (bio : string)
  (captions : list string) (first_name niche : option string) : gender * Q :=
  let (gender, confidence) :=
    detect_gender_from_text cfg bio captions first_name niche in
  if truthy first_name
     && match first_name with
        | Some name => String.eqb (lower name) "chris"
        | None => false
        end
     && gender_eqb gender Female
  then (Male, 85 # 100)
  else (gender, confidence).

(** ** Outcomes

    A computation that returns a value or raises. *)

Inductive exn : Type := KeyError | TypeError | UnboundLocalError.

Inductive outcome (A : Type) : Type :=
| Ok (a : A) : outcome A
| Raise (e : exn) : outcome A.

Arguments Ok {A} a.
Arguments Raise {A} e.

Definition bind {A B : Type} (m : outcome A) (f : A -> outcome B)
  : outcome B :=
  match m with
  | Ok a => f a
  | Raise e => Raise e
  end.

Notation "x <- m ;; f" := (bind m (fun x => f))
  (at level 61, m at next level, right associativity).

(** A loop whose body may raise. *)
Fixpoint foldM {A S : Type} (body : S -> A -> outcome S) (l : list A) (s : S)
  : outcome S :=
  match l with
  | [] => Ok s
  | x :: l' => s' <- body s x ;; foldM body l' s'
  end.

(** [d[k]] *)
Definition subscript {V : Type} (d : dict V) (k : string) : outcome V :=
  match get k d with
  | Some v => Ok v
  | None => Raise KeyError
  end.

(** ** Collaboration detector *)

Record tally : Type := Tally {
  count : Z;
  is_recent : bool
}.

Record sources : Type := Sources {
  mention : bool;
  hashtag : bool
}.

(** The three dictionaries the first loop fills. *)
Record brand_tables : Type := BrandTables {
  mentions_count : dict tally;
  hashtags_count : dict tally;
  brand_sources : dict sources
}.

Definition stop_words : list string :=
  ["the"; "and"; "for"; "from"; "with"; "this"; "that"; "have"; "has";
   "her"; "his"; "our"; "my"; "your"; "their"; "its"; "as"; "at"; "by";
   "to"; "in"; "on"; "of"; "or"; "if"].

(** [@([A-Za-z0-9._]+)] *)
Definition is_username_char (c : ascii) : bool :=
  is_alpha c || is_digit c || (code c =? 46)%nat || (code c =? 95)%nat.

Definition caption_mention_pattern : regex :=
  Seq (Chr "@") (Grp (Plus (Cls is_username_char))).

(** [t['count'] += 1] and the recency update that follows it. *)
Definition tally_hit (recent : bool) (t : tally) : tally :=
  {| count := (count t + 1)%Z;
     is_recent := if recent && negb (is_recent t) then true else is_recent t |}.

(** The body of the loop over the mentions of one caption. *)
Definition count_mention (recent : bool) (tb : brand_tables) (m : string)
  : outcome brand_tables :=
  if (String.length m <? 3)%nat then Ok tb
  else if mem (lower m) stop_words then Ok tb
  else
    tb1 <-
      (if negb (has_key m (mentions_count tb))
       then Ok {| mentions_count := set m (Tally 0 false) (mentions_count tb);
                  hashtags_count := hashtags_count tb;
                  brand_sources := set m (Sources true false) (brand_sources tb) |}
       else
         src <- subscript (brand_sources tb) m ;;
         Ok {| mentions_count := mentions_count tb;
               hashtags_count := hashtags_count tb;
               brand_sources := set m (Sources true (hashtag src)) (brand_sources tb) |}) ;;
    t <- subscript (mentions_count tb1) m ;;
    Ok {| mentions_count := set m (tally_hit recent t) (mentions_count tb1);
          hashtags_count := hashtags_count tb1;
          brand_sources := brand_sources tb1 |}.

(** The body of the loop over the hashtags of one caption. *)
Definition count_hashtag (recent : bool) (tb : brand_tables) (h : string)
  : outcome brand_tables :=
  tb1 <-
    (if negb (has_key h (hashtags_count tb))
     then
       src <-
         (if negb (has_key h (brand_sources tb))
          then Ok (Sources false true)
          else s <- subscript (brand_sources tb) h ;;
               Ok (Sources (mention s) true)) ;;
       Ok {| mentions_count := mentions_count tb;
             hashtags_count := set h (Tally 0 false) (hashtags_count tb);
             brand_sources := set h src (brand_sources tb) |}
     else Ok tb) ;;
  t <- subscript (hashtags_count tb1) h ;;
  Ok {| mentions_count := mentions_count tb1;
        hashtags_count := set h (tally_hit recent t) (hashtags_count tb1);
        brand_sources := brand_sources tb1 |}.

Definition recent_threshold : Z := 300.

(** [taken_at] is set and the post is later than the cut-off, [days] days
    before [now] (both in seconds). *)
Definition recent_post (now days : Z) (p : post) : bool :=
  match taken_at p with
  | Some t => negb (t =? 0)%Z && (now - days * 86400 <? t)%Z
  | None => false
  end.

(** The body of the first loop over the posts. *)
Definition scan_post (now : Z) (tb : brand_tables) (p : post)
  : outcome brand_tables :=
  let caption := caption_of p in
  let recent := recent_post now recent_threshold p in
  if nonempty caption
  then
    tb1 <- foldM (count_mention recent)
                 (findall caption_mention_pattern caption) tb ;;
    foldM (count_hashtag recent) (findall hashtag_pattern caption) tb1
  else Ok tb.

(** [list(set(a + b))]: every name once (the order of a set is not
    specified and nothing below depends on it). *)
Fixpoint dedup (l : list string) : list string :=
  match l with
  | [] => []
  | x :: l' => if mem x l' then dedup l' else x :: dedup l'
  end.

Record engagement_item : Type := EngagementItem {
  engagement : Z;
  likes : Z;
  comments : Z;
  brands : list string
}.

(** [@brand\b] or [#brand\b], ignoring case. *)
Definition names_brand (brand caption : string) : bool :=
  search (Seqs [Chr "@"; LitI brand; WordB]) caption
  || search (Seqs [Chr "#"; LitI brand; WordB]) caption.

(** The second loop over the posts. *)
Definition branded_engagement (all_brands : list string) (posts : list post)
  : list engagement_item :=
  flat_map
    (fun p =>
       let post_brands :=
         filter (fun brand => names_brand brand (caption_of p)) all_brands in
       match post_brands with
       | [] => []
       | _ => [ {| engagement := (like_count p + comment_count p)%Z;
                   likes := like_count p;
                   comments := comment_count p;
                   brands := post_brands |} ]
       end)
    posts.

Definition ad_indicators : list regex :=
  [ Seqs [WordB;
          Alts (map LitI ["ad"; "sponsored"; "paid"; "partner"; "collab";
                          "ambassador"]);
          WordB];
    Seqs [LitI "#ad"; WordB];
    Seqs [LitI "#sponsored"; WordB];
    Seqs [LitI "#paidpartner"; WordB];
    Seqs [LitI "#sponsored_by"; WordB];
    Seqs [LitI "#partnership"; WordB] ].

(** [sum(xs) / len(xs)], or 0 for no item. *)
Definition average (xs : list Z) : Q :=
  match xs with
  | [] => 0
  | _ => inject_Z (sumZ xs) / inject_Z (Z.of_nat (List.length xs))
  end.

(** [list(set(types)) if types else ['organic']], where [types] holds one
    'ad' for every post that names the brand and carries an ad indicator. *)
Definition collab_types (contains_brand : string -> bool) (posts : list post)
  : list string :=
  if existsb
       (fun p =>
          contains_brand (caption_of p)
          && existsb (fun pattern => search pattern (caption_of p)) ad_indicators)
       posts
  then ["ad"] else ["organic"].

Definition source_str (src : sources) : string :=
  join " & " ((if mention src then ["mention"] else [])
              ++ (if hashtag src then ["hashtag"] else [])).

Record collab : Type := Collab {
  c_name : string;
  c_count : Z;
  c_types : list string;
  c_engagement : Z;
  c_is_recent : bool;
  c_source : string
}.

(** A name with the pass that listed it. *)
Record brand_ref : Type := BrandRef {
  b_name : string;
  b_source : string
}.

(** What the two passes over the dictionaries build. *)
Record collab_lists : Type := CollabLists {
  recent_brands_acc : list brand_ref;
  previous_brands_acc : list brand_ref;
  all_collabs : list collab
}.

Definition brand_engagement (brand : string) (items : list engagement_item)
  : Q :=
  average (map engagement (filter (fun item => mem brand (brands item)) items)).

(** The part the two passes share, after their guards: [via] is the pass,
    [contains_brand] its test for a caption that names the brand. *)
Definition add_collab (via : string) (contains_brand : string -> bool)
  (tb : brand_tables) (items : list engagement_item) (posts : list post)
  (brand : string) (data : tally) (acc : collab_lists) : outcome collab_lists :=
  src <- subscript (brand_sources tb) brand ;;
  Ok {| recent_brands_acc :=
          if is_recent data
          then recent_brands_acc acc ++ [BrandRef brand via]
          else recent_brands_acc acc;
        previous_brands_acc := previous_brands_acc acc ++ [BrandRef brand via];
        all_collabs :=
          all_collabs acc ++
          [ {| c_name := brand;
               c_count := count data;
               c_types := collab_types contains_brand posts;
               c_engagement := round0 (brand_engagement brand items);
               c_is_recent := is_recent data;
               c_source := source_str src |} ] |}.

(** The body of the pass over [mentions_count]. *)
Definition mention_pass (tb : brand_tables) (items : list engagement_item)
  (posts : list post) (acc : collab_lists) (entry : string * tally)
  : outcome collab_lists :=
  let (brand, data) := entry in
  if (count data <? 2)%Z then Ok acc
  else
    add_collab "mention"
      (fun caption => search (Alt (Seq (Chr "@") (LitI brand))
                                  (Seq (Chr "#") (LitI brand))) caption)
      tb items posts brand data acc.

(** The body of the pass over [hashtags_count]. *)
Definition hashtag_pass (tb : brand_tables) (items : list engagement_item)
  (posts : list post) (acc : collab_lists) (entry : string * tally)
  : outcome collab_lists :=
  let (brand, data) := entry in
  if has_key brand (mentions_count tb) then Ok acc
  else if (count data <? 2)%Z then Ok acc
  else
    add_collab "hashtag"
      (fun caption => search (Seq (Chr "#") (LitI brand)) caption)
      tb items posts brand data acc.

(** The sort key [(-1 if is_recent else 0, -engagement)], compared as a
    tuple; [list.sort] is stable. *)
Definition collab_key (c : collab) : Z * Z :=
  (if c_is_recent c then (-1)%Z else 0%Z, (- c_engagement c)%Z).

Definition key_le (a b : Z * Z) : bool :=
  (fst a <? fst b)%Z || ((fst a =? fst b)%Z && (snd a <=? snd b)%Z).

Fixpoint insert_collab (c : collab) (l : list collab) : list collab :=
  match l with
  | [] => [c]
  | d :: l' =>
      if key_le (collab_key c) (collab_key d) then c :: d :: l'
      else d :: insert_collab c l'
  end.

Definition sort_collabs (l : list collab) : list collab :=
  fold_right insert_collab [] l.

(** The first entry of every name. *)
Fixpoint first_of_each (seen : list string) (l : list brand_ref)
  : list brand_ref :=
  match l with
  | [] => []
  | item :: l' =>
      if mem (b_name item) seen then first_of_each seen l'
      else item :: first_of_each (b_name item :: seen) l'
  end.

(** *** The status chain *)

Definition status_hashtags : list string :=
  ["ads"; "ad"; "collaboration"; "collab"; "usemycode"; "partnership";
   "partner"].

(** The creator's own username, from the first post. *)
Definition creator_username (posts : list post) : option string :=
  match posts with
  | [] => None
  | p :: _ => user_username p
  end.

(** Rule 1: [is_paid_partnership is True]. *)
Definition rule_paid (p : post) : bool :=
  match is_paid_partnership p with Some true => true | _ => false end.

(** Rule 2: [f'#{tag}' in caption.lower()] for one of the tags. *)
Definition rule_hashtag (p : post) : bool :=
  nonempty (caption_of p)
  && existsb (fun tag => contains ("#" ++ tag) (lower (caption_of p)))
             status_hashtags.

(** [name and name != uname] *)
Definition other_user (uname name : option string) : bool :=
  match name with
  | Some n =>
      nonempty n
      && negb match uname with Some u => String.eqb n u | None => false end
  | None => false
  end.

(** Rule 3: the owner of the post. *)
Definition rule_owner (uname : option string) (p : post) : bool :=
  other_user uname (owner_username p).

(** Rule 4: a coauthor of the post. *)
Definition rule_coauthor (uname : option string) (p : post) : bool :=
  existsb (other_user uname) (coauthor_producers p).

Definition final_status (posts : list post) : option string :=
  let uname := creator_username posts in
  if existsb rule_paid posts then Some "Active"
  else if existsb rule_hashtag posts then Some "Active"
  else if existsb (rule_owner uname) posts then Some "Active"
  else if existsb (rule_coauthor uname) posts then Some "Active"
  else None.

Record collab_metrics : Type := CollabMetrics {
  total_collaborations : Z;
  recent_count : Z;
  engagement_rate : Q
}.

Record engagement_metrics : Type := EngagementMetrics {
  branded_engagement_rate : Q;
  avg_branded_likes : Z;
  avg_branded_comments : Z
}.

Record collaboration_info : Type := CollaborationInfo {
  status : option string;
  recent_brands_with_source : list brand_ref;
  previous_brands_with_source : list brand_ref;
  recent_brands : list string;
  previous_brands : list string;
  metrics : collab_metrics;
  top_collaborations : list collab;
  engagement_metrics_of : engagement_metrics
}.

Definition identify_collaborations (now : Z) (posts : list post)
  : outcome collaboration_info :=
  tb <- foldM (scan_post now) posts (BrandTables [] [] []) ;;
  let all_brands :=
    dedup (keys (mentions_count tb) ++ keys (hashtags_count tb)) in
  let items := branded_engagement all_brands posts in
  acc1 <- foldM (mention_pass tb items posts) (mentions_count tb)
                (CollabLists [] [] []) ;;
  acc2 <- foldM (hashtag_pass tb items posts) (hashtags_count tb) acc1 ;;
  let recent := first_of_each [] (recent_brands_acc acc2) in
  let previous := first_of_each [] (previous_brands_acc acc2) in
  let avg_branded_engagement := average (map engagement items) in
  Ok {| status := final_status posts;
        recent_brands_with_source := recent;
        previous_brands_with_source := previous;
        recent_brands := map b_name recent;
        previous_brands := map b_name previous;
        metrics :=
          {| total_collaborations := Z.of_nat (List.length previous);
             recent_count := Z.of_nat (List.length recent);
             engagement_rate := round1 avg_branded_engagement |};
        top_collaborations := sort_collabs (all_collabs acc2);
        engagement_metrics_of :=
          {| branded_engagement_rate := round1 avg_branded_engagement;
             avg_branded_likes := round0 (average (map likes items));
             avg_branded_comments := round0 (average (map comments items)) |} |}.

(** ** Geo-resolution engine *)

Definition Rleb (x y : R) : bool := if Rle_dec x y then true else false.
Definition Rltb (x y : R) : bool := if Rlt_dec x y then true else false.

Definition radians (deg : R) : R := (deg * PI / 180)%R.

(** Great-circle distance in kilometres. *)
Definition haversine_distance (lat1 lon1 lat2 lon2 : R) : R :=
  let lat1 := radians lat1 in
  let lon1 := radians lon1 in
  let lat2 := radians lat2 in
  let lon2 := radians lon2 in
  let dlon := (lon2 - lon1)%R in
  let dlat := (lat2 - lat1)%R in
  let a := ((sin (dlat / 2)) ^ 2
            + cos lat1 * cos lat2 * (sin (dlon / 2)) ^ 2)%R in
  let c := (2 * asin (sqrt a))%R in
  let r := 6371%R in
  (c * r)%R.

Record bounds : Type := Bounds {
  north : R;
  south : R;
  east : R;
  west : R
}.

Definition is_within_bounds (lat lng : R) (b : bounds) : bool :=
  (Rleb (south b) lat && Rleb lat (north b))
  && (Rleb (west b) lng && Rleb lng (east b)).

Record coordinates : Type := Coordinates {
  lat_of : R;
  lng_of : R
}.

(** A landmark: its position and, when the record carries them, its city
    and county. *)
Record landmark_data : Type := LandmarkData {
  lm_lat : R;
  lm_lng : R;
  lm_city : option string;
  lm_county : option string
}.

Record subdivision : Type := Subdivision {
  sub_name : string;
  sub_bounds : bounds;
  major_cities : option (dict coordinates);
  landmarks : option (dict landmark_data)
}.

Inductive subdivision_type : Type :=
| states | provinces | regions | emirates | countries | governorates.

(** A country: [bucket t] is the dictionary under the key [t], when the
    country has that key. *)
Record country_data : Type := CountryData {
  country_name : string;
  country_bounds : bounds;
  bucket : subdivision_type -> option (dict subdivision)
}.

(** [gps_db['countries']] *)
Definition gps_db : Type := dict country_data.

Fixpoint find_country (lat lng : R) (db : gps_db)
  : option (string * country_data) :=
  match db with
  | [] => None
  | (country_code, data) :: rest =>
      if is_within_bounds lat lng (country_bounds data)
      then Some (country_code, data)
      else find_country lat lng rest
  end.

Definition subdivision_types : list subdivision_type :=
  [states; provinces; regions; emirates; countries; governorates].

Fixpoint first_within (lat lng : R) (subs : dict subdivision)
  : option (string * subdivision) :=
  match subs with
  | [] => None
  | (sub_code, data) :: rest =>
      if is_within_bounds lat lng (sub_bounds data)
      then Some (sub_code, data)
      else first_within lat lng rest
  end.

Fixpoint find_subdivision_in (types : list subdivision_type) (lat lng : R)
  (country : country_data)
  : option (string * subdivision * subdivision_type) :=
  match types with
  | [] => None
  | t :: rest =>
      match bucket country t with
      | Some subs =>
          match first_within lat lng subs with
          | Some (sub_code, data) => Some (sub_code, data, t)
          | None => find_subdivision_in rest lat lng country
          end
      | None => find_subdivision_in rest lat lng country
      end
  end.

Definition find_subdivision (lat lng : R) (country : country_data)
  : option (string * subdivision * subdivision_type) :=
  find_subdivision_in subdivision_types lat lng country.

(** [distance < closest_distance], where no candidate yet stands for
    [float('inf')]. *)
Definition closer {X : Type} (distance : R) (closest : option (X * R)) : bool :=
  match closest with
  | Some (_, closest_distance) => Rltb distance closest_distance
  | None => true
  end.

Definition find_city (lat lng : R) (sub : subdivision) (max_distance_km : R)
  : option (string * R) :=
  let closest :=
    match major_cities sub with
    | Some cities =>
        fold_left
          (fun best city =>
             let distance :=
               haversine_distance lat lng (lat_of (snd city)) (lng_of (snd city)) in
             if closer distance best then Some (fst city, distance) else best)
          cities None
    | None => None
    end in
  match closest with
  | Some (closest_city, closest_distance) =>
      if Rleb closest_distance max_distance_km
      then Some (closest_city, closest_distance) else None
  | None => None
  end.

Definition find_landmark (lat lng : R) (sub : subdivision) (max_distance_km : R)
  : option (string * landmark_data * R) :=
  match landmarks sub with
  | None => None
  | Some lms =>
      match
        fold_left
          (fun best lm =>
             let distance :=
               haversine_distance lat lng (lm_lat (snd lm)) (lm_lng (snd lm)) in
             if closer distance best && Rleb distance max_distance_km
             then Some (lm, distance) else best)
          lms None
      with
      | Some (lm, distance) => Some (fst lm, snd lm, distance)
      | None => None
      end
  end.

Fixpoint first_county (lat lng : R) (lms : dict landmark_data)
  : option string :=
  match lms with
  | [] => None
  | (_, data) :: rest =>
      match lm_county data with
      | Some county =>
          if Rleb (haversine_distance lat lng (lm_lat data) (lm_lng data)) 1
          then Some county
          else first_county lat lng rest
      | None => first_county lat lng rest
      end
  end.

Definition find_county (lat lng : R) (sub : subdivision) : option string :=
  match landmarks sub with
  | Some lms => first_county lat lng lms
  | None => None
  end.

Record location : Type := Location {
  city : option string;
  state : option string;
  country : option string;
  county : option string;
  landmark : option string;
  postal_code : option string;
  full_location : option string;
  approximate : bool
}.

Definition no_location : location :=
  {| city := None; state := None; country := None; county := None;
     landmark := None; postal_code := None; full_location := None;
     approximate := true |}.

(** The parts of [full_location], in order. *)
Definition location_parts (country_code : string)
  (r_landmark r_city r_county r_state r_country : option string)
  : list string :=
  (match r_landmark with
   | Some l => if nonempty l then [l] else []
   | None => []
   end)
  ++ (match r_city with
      | Some c =>
          if nonempty c
             && (negb (truthy r_landmark)
                 || negb match r_landmark with
                         | Some l => String.eqb l c
                         | None => false
                         end)
          then [c] else []
      | None => []
      end)
  ++ (match r_county with
      | Some c =>
          if nonempty c && String.eqb country_code "USA"
          then [(c ++ " County")%string] else []
      | None => []
      end)
  ++ (match r_state with
      | Some s => if nonempty s then [s] else []
      | None => []
      end)
  ++ (match r_country with
      | Some c => if nonempty c then [c] else []
      | None => []
      end).

Definition determine_location (lat lng : R) (db : gps_db) : location :=
  match find_country lat lng db with
  | None => no_location
  | Some (country_code, cdata) =>
      let r_country := Some (country_name cdata) in
      let '(r_state, r_landmark, r_city, r_county) :=
        match find_subdivision lat lng cdata with
        | None => (None, None, None, None)
        | Some (_, sub_data, _) =>
            let r_state := Some (sub_name sub_data) in
            let '(r_landmark, r_city, r_county) :=
              match find_landmark lat lng sub_data 5 with
              | Some (landmark_name, landmark_info, _) =>
                  if nonempty landmark_name
                  then (Some landmark_name,
                        lm_city landmark_info, lm_county landmark_info)
                  else (None, None, None)
              | None => (None, None, None)
              end in
            let r_city :=
              if negb (truthy r_city)
              then match find_city lat lng sub_data 50 with
                   | Some (city_name, _) =>
                       if nonempty city_name then Some city_name else r_city
                   | None => r_city
                   end
              else r_city in
            let r_county :=
              if String.eqb country_code "USA" && negb (truthy r_county)
              then match find_county lat lng sub_data with
                   | Some c => if nonempty c then Some c else r_county
                   | None => r_county
                   end
              else r_county in
            (r_state, r_landmark, r_city, r_county)
        end in
      let parts :=
        location_parts country_code r_landmark r_city r_county r_state
                       r_country in
      {| city := r_city; state := r_state; country := r_country;
         county := r_county; landmark := r_landmark; postal_code := None;
         full_location :=
           match parts with
           | [] => r_country
           | _ => Some (join ", " parts)
           end;
         approximate := true |}
  end.

(** ** The geo-resolution pass over the analysis records *)

Inductive json : Type :=
| JNull : json
| JBool (b : bool) : json
| JNum (x : R) : json
| JStr (s : string) : json
| JArr (items : list json) : json
| JObj (fields : list (string * json)) : json.

(** Truthiness of a value. *)
Definition is_true (v : json) : bool :=
  match v with
  | JNull => false
  | JBool b => b
  | JNum x => if Req_dec_T x 0 then false else true
  | JStr s => nonempty s
  | JArr items => match items with [] => false | _ => true end
  | JObj fields => match fields with [] => false | _ => true end
  end.

(** [k in v] *)
Definition py_in (k : string) (v : json) : outcome bool :=
  match v with
  | JObj fields => Ok (has_key k fields)
  | JArr items =>
      Ok (existsb (fun x => match x with
                            | JStr s => String.eqb k s
                            | _ => false
                            end) items)
  | JStr s => Ok (contains k s)
  | _ => Raise TypeError
  end.

(** [v[k]] for a string [k] *)
Definition py_item (v : json) (k : string) : outcome json :=
  match v with
  | JObj fields => subscript fields k
  | _ => Raise TypeError
  end.

(** A coordinate as a number; any other value is outside the model and is
    reported as a failure of the pass. *)
Definition as_number (v : json) : outcome R :=
  match v with
  | JNum x => Ok x
  | JBool b => Ok (if b then 1%R else 0%R)
  | _ => Raise TypeError
  end.

Definition json_of (o : option string) : json :=
  match o with Some s => JStr s | None => JNull end.

(** The assignments to [home_location] from the resolved place. *)
Definition patch_home (loc : location) (home : list (string * json))
  : list (string * json) :=
  let home := set "city" (json_of (city loc)) home in
  let home := set "state" (json_of (state loc)) home in
  let home := set "country" (json_of (country loc)) home in
  let home :=
    if truthy (landmark loc)
    then set "landmark" (json_of (landmark loc))
             (if has_key "landmark" home then home
              else set "landmark" JNull home)
    else home in
  let home :=
    if truthy (county loc)
    then set "county" (json_of (county loc))
             (if has_key "county" home then home
              else set "county" JNull home)
    else home in
  if truthy (full_location loc)
  then set "full_location" (json_of (full_location loc)) home
  else home.

(** [home_location and 'coordinates' in home_location and
    home_location['coordinates']]: the coordinates to resolve, if any. *)
Definition coordinates_of (home : json) : outcome (option json) :=
  if is_true home then
    present <- py_in "coordinates" home ;;
    if present then
      coords <- py_item home "coordinates" ;;
      Ok (if is_true coords then Some coords else None)
    else Ok None
  else Ok None.

(** The body of the loop over the records. *)
Definition process_user (db : gps_db) (user : json) : outcome json :=
  has_la <- py_in "location_analysis" user ;;
  if has_la then
    la <- py_item user "location_analysis" ;;
    has_home <- py_in "home_location" la ;;
    if has_home then
      home <- py_item la "home_location" ;;
      found <- coordinates_of home ;;
      match found with
      | None => Ok user
      | Some coords =>
          lat_v <- py_item coords "lat" ;;
          lng_v <- py_item coords "lng" ;;
          lat <- as_number lat_v ;;
          lng <- as_number lng_v ;;
          match user, la, home with
          | JObj user_fields, JObj la_fields, JObj home_fields =>
              let home' :=
                patch_home (determine_location lat lng db) home_fields in
              Ok (JObj (set "location_analysis"
                          (JObj (set "home_location" (JObj home') la_fields))
                          user_fields))
          | _, _, _ => Raise TypeError
          end
      end
    else Ok user
  else Ok user.

(** [process_instagram_data], from the loaded collection to the collection
    it writes. *)
Definition process_instagram_data (db : gps_db) (instagram_data : list json)
  : outcome (list json) :=
  foldM (fun done user => user' <- process_user db user ;; Ok (done ++ [user']))
        instagram_data [].

(** ** The per-creator analysis

    The analysis record with the sections that the classifiers above fill:
    the collaboration and niche analyses, the demographic part of the
    personal details and the posting frequency. *)

(** The clock of a run: the current time in seconds, the offset of local
    time from UTC in seconds, and the current year. *)
Record clock : Type := Clock {
  now : Z;
  utc_offset : Z;
  current_year : Z
}.

Record profile : Type := Profile {
  full_name : string;
  username : option string;
  biography : string
}.

Record personal_info : Type := PersonalInfo {
  first_name : option string;
  last_name : option string;
  user_name : option string;
  age : option Z;
  gender_of : gender;
  age_group : option string
}.

Record frequency_info : Type := FrequencyInfo {
  overall_frequency : option string;
  days_since_last_post : option Z;
  consistent_schedule : option bool;
  best_days : list string;
  best_times : list string
}.

Record analysis : Type := Analysis {
  collaboration_analysis : collaboration_info;
  niche_analysis : niche_analysis_info;
  personal_details : personal_info;
  posting_frequency : frequency_info
}.

(** [full_name.split(' - ')[0].split(' ', 1)] when the name holds [' - '],
    [full_name.split(' ', 1)] otherwise. *)
Definition name_parts (name : string) : list string :=
  if contains " - " name
  then split1 " " (hd "" (split " - " name))
  else split1 " " name.

(** The bio followed by every non-empty caption, one per line. *)
Definition all_text (bio : string) (posts : list post) : string :=
  fold_left
    (fun text p =>
       if nonempty (caption_of p)
       then (text ++ newline ++ caption_of p)%string else text)
    posts bio.

Definition analyze_user_info (cfg : config) (clk : clock) (user : profile)
  (posts : list post) : outcome analysis :=
  let parts := name_parts (full_name user) in
  let first := hd_error parts in
  let last := nth_error parts 1 in
  let (age, age_group) :=
    extract_age (current_year clk) (all_text (biography user) posts) in
  let niche := identify_niche posts in
  let captions := map caption_of posts in
  let (gender, _) :=
    gender_decision cfg (biography user) captions first (primary niche) in
  collaboration <- identify_collaborations (now clk) posts ;;
  Ok {| collaboration_analysis := collaboration;
        niche_analysis := niche;
        personal_details :=
          {| first_name := first; last_name := last;
             user_name := username user; age := age; gender_of := gender;
             age_group := age_group |};
        posting_frequency :=
          {| overall_frequency := None; days_since_last_post := None;
             consistent_schedule := None; best_days := []; best_times := [] |} |}.

(** *** Posting cadence *)

Definition day_names : list string :=
  ["Monday"; "Tuesday"; "Wednesday"; "Thursday"; "Friday"; "Saturday";
   "Sunday"].

(** [datetime.fromtimestamp(t).strftime('%A')] and [.hour], in local time. *)
Definition day_name (clk : clock) (t : Z) : string :=
  nth (Z.to_nat (((t + utc_offset clk) / 86400 + 3) mod 7)) day_names "".

Definition hour_of (clk : clock) (t : Z) : Z :=
  ((t + utc_offset clk) mod 86400 / 3600)%Z.

(** [d[k] = d.get(k, 0) + 1] for integer keys. *)
Fixpoint bumpZ (k : Z) (d : list (Z * Z)) : list (Z * Z) :=
  match d with
  | [] => [(k, 1%Z)]
  | (k', v) :: d' =>
      if (k =? k')%Z then (k', (v + 1)%Z) :: d' else (k', v) :: bumpZ k d'
  end.

(** The timestamps that are set, in post order. *)
Definition timestamps (posts : list post) : list Z :=
  flat_map (fun p => match taken_at p with
                     | Some t => if (t =? 0)%Z then [] else [t]
                     | None => []
                     end) posts.

(** Differences of neighbours, in days. *)
Fixpoint time_diffs (sorted : list Z) : list Q :=
  match sorted with
  | a :: (b :: _) as rest => (inject_Z (a - b) / inject_Z (24 * 3600)) :: time_diffs rest
  | _ => []
  end.

Definition frequency_label (avg_days_between_posts : Q) : string :=
  if Qltb avg_days_between_posts 1 then "Multiple times daily"
  else if Qltb avg_days_between_posts 2 then "Daily"
  else if Qltb avg_days_between_posts 7 then "Weekly"
  else if Qltb avg_days_between_posts 14 then "Bi-weekly"
  else if Qltb avg_days_between_posts 31 then "Monthly"
  else "Infrequent".

(** The three locals that are assigned only under [if post_timestamps:];
    [None] is the state in which they are not bound. *)
Definition cadence (clk : clock) (post_timestamps : list Z)
  : option (string * Z * option bool) :=
  match sort_desc (fun t => t) post_timestamps with
  | [] => None
  | (last_post_timestamp :: _) as sorted =>
      let days := ((now clk - last_post_timestamp) / 86400)%Z in
      match time_diffs sorted with
      | [] => Some ("N/A", days, None)
      | diffs =>
          let avg := (sumQ diffs / inject_Z (Z.of_nat (List.length diffs)))%Q in
          Some (frequency_label avg, days,
                Some (forallb (fun diff => Qle_bool (Qabs (diff - avg)) 2) diffs))
      end
  end.

Definition time_ranges : list (string * list Z) :=
  [ ("Early Morning (5am-8am)", [5; 6; 7; 8]%Z);
    ("Morning (8am-12pm)", [9; 10; 11; 12]%Z);
    ("Afternoon (12pm-5pm)", [13; 14; 15; 16; 17]%Z);
    ("Evening (5pm-10pm)", [18; 19; 20; 21; 22]%Z);
    ("Night (10pm-5am)", [23; 0; 1; 2; 3; 4]%Z) ].

Definition range_counts (post_hours : list (Z * Z)) : dict Z :=
  fold_left
    (fun counts entry =>
       fold_left
         (fun cs range =>
            if existsb (Z.eqb (fst entry)) (snd range)
            then set (fst range) (get0 (fst range) cs + snd entry)%Z cs
            else cs)
         time_ranges counts)
    post_hours (map (fun range => (fst range, 0%Z)) time_ranges).

Definition analyze_post_info (clk : clock) (posts : list post) (a : analysis)
  : outcome analysis :=
  match posts with
  | [] => Ok a
  | _ =>
      let post_timestamps := timestamps posts in
      let post_days :=
        fold_left (fun d t => set (day_name clk t) (get0 (day_name clk t) d + 1)%Z d)
                  post_timestamps [] in
      let post_hours :=
        fold_left (fun d t => bumpZ (hour_of clk t) d) post_timestamps [] in
      let best_days := map fst (firstn 3 (sort_desc snd post_days)) in
      let best_times :=
        match post_hours with
        | [] => []
        | _ => map fst (filter (fun e => (0 <? snd e)%Z)
                               (firstn 2 (sort_desc snd (range_counts post_hours))))
        end in
      match cadence clk post_timestamps with
      | None => Raise UnboundLocalError
      | Some (frequency, days, consistent) =>
          Ok {| collaboration_analysis := collaboration_analysis a;
                niche_analysis := niche_analysis a;
                personal_details := personal_details a;
                posting_frequency :=
                  {| overall_frequency := Some frequency;
                     days_since_last_post := Some days;
                     consistent_schedule := consistent;
                     best_days := best_days;
                     best_times := best_times |} |}
      end
  end.

(** [analyze_creator_data], after the two files are loaded: a raised
    failure is caught and the creator yields no record. *)
Definition analyze_creator_data (cfg : config) (clk : clock) (user : profile)
  (posts : list post) : option analysis :=
  match a <- analyze_user_info cfg clk user posts ;; analyze_post_info clk posts a with
  | Ok a => Some a
  | Raise _ => None
  end.

(* ================================================================== *)
(** * Part I, continued: further functions of [analyze_insta_data.py]  *)
(* ================================================================== *)

(** ** US detection from text *)






(** ** Locations of the posts *)

(** The result of [parse_location_string]. *)
Record parsed_location : Type := ParsedLocation {
  parsed_city : option string;
  parsed_state : option string;
  parsed_country : option string;
  parsed_postal_code : option string;
  parsed_full_location : string
}.

Definition country_mapping : dict string :=
  [ ("UAE", "United Arab Emirates"); ("UK", "United Kingdom");
    ("USA", "United States"); ("US", "United States") ].

Definition parse_location_string (location_string : string)
  : option parsed_location :=
  if negb (nonempty location_string) then None
  else
    let location_parts := split ", " location_string in
    let '(city, state, country) :=
      match location_parts with
      | [] => (None, None, None)
      | [only] => (Some only, None, None)
      | [first; second_part] =>
          match get second_part country_mapping with
          | Some name => (Some first, None, Some name)
          | None =>
              if (String.length second_part =? 2)%nat && isupper second_part
              then (Some first, Some second_part, Some "United States")
              else (Some first, None, Some second_part)
          end
      | first :: second :: third :: _ => (Some first, Some second, Some third)
      end in
    Some {| parsed_city := city;
            parsed_state := state;
            parsed_country := country;
            parsed_postal_code := None;
            parsed_full_location := location_string |}.

(** [node.location]: the fields that [analyze_locations] reads; an absent
    or null field is [None]. *)
Record location_tag : Type := LocationTag {
  tag_name : option string;
  tag_pk : option Z;
  tag_lat : option R;
  tag_lng : option R
}.

(** A post with its location; an absent, null or empty [location] is
    [None]. *)
Record located_post : Type := LocatedPost {
  the_post : post;
  its_location : option location_tag
}.








(** ** Contact details in the bio *)

(** [c in chars] for a character. *)
Fixpoint char_in (chars : string) (c : ascii) : bool :=
  match chars with
  | EmptyString => false
  | String x rest => Ascii.eqb c x || char_in rest c
  end.

(** [[A-Za-z0-9._%+-]], [[A-Za-z0-9.-]] and [[A-Z|a-z]] *)
Definition is_email_local (c : ascii) : bool :=
  is_alpha c || is_digit c || char_in "._%+-" c.
Definition is_email_domain (c : ascii) : bool :=
  is_alpha c || is_digit c || char_in ".-" c.
Definition is_email_tld (c : ascii) : bool :=
  is_alpha c || char_in "|" c.

(** [\b[A-Za-z0-9._%+-]+@[A-Za-z0-9.-]+\.[A-Z|a-z]{2,}\b] *)
Definition email_pattern : regex :=
  Seqs [WordB; Plus (Cls is_email_local); Chr "@"; Plus (Cls is_email_domain);
        Chr "."; Times 2 (Cls is_email_tld); Star (Cls is_email_tld); WordB].

Definition extract_email (text : string) : option string :=
  if negb (nonempty text) then None
  else match findall email_pattern text with
       | m :: _ => Some m
       | [] => None
       end.





(** ** Vocabulary of the properties *)

(** *** The matcher *)



(** Every match of [r] goes through a group. *)
Fixpoint always_caps (r : regex) : bool :=
  match r with
  | Grp _ => true
  | Seq r1 r2 => always_caps r1 || always_caps r2
  | Alt r1 r2 => always_caps r1 && always_caps r2
  | Eps | Cls _ | Star _ | WordB => false
  end.


Definition has_cap (st : mstate) : bool :=
  match m_cap st with Some _ => true | None => false end.


(** *** Age *)



(** *** Niche scores *)

(** The weight a dictionary of counts gives to the tags that satisfy [P]. *)
Definition weight (P : string -> bool) (d : dict Z) : Z :=
  sumZ (map (fun e => if P (fst e) then snd e else 0%Z) d).

(** One hashtag against a list of categories: what it adds to [cat]. *)
Definition added (cats : dict (list string)) (cat : string)
  (entry : string * Z) : Z :=
  sumZ (map (fun c => if String.eqb cat (fst c) && any_keyword_in (snd c) (fst entry)
                      then snd entry else 0%Z) cats).


(** Every count of the dictionary is non-negative. *)
Definition nonneg_values (d : dict Z) : Prop :=
  Forall (fun e => 0 <= snd e)%Z d.

(** *** Collaborations *)











(** *** Posting cadence *)

(** A post as it is without its [taken_at] timestamp. *)
Definition without_timestamp (p : post) : post :=
  {| user_username := user_username p;
     caption_text := caption_text p;
     taken_at := None;
     like_count := like_count p;
     comment_count := comment_count p;
     is_paid_partnership := is_paid_partnership p;
     owner_username := owner_username p;
     coauthor_producers := coauthor_producers p |}.

(** *** Vocabulary of the geo-resolution properties *)














(** The values that are set, in order. *)
Fixpoint present (parts : list (option string)) : list string :=
  match parts with
  | [] => []
  | Some s :: rest => s :: present rest
  | None :: rest => present rest
  end.





(** A small reference database: California with one landmark and one
    major city. *)
Definition sample_db : gps_db :=
  [ ("USA",
     {| country_name := "United States";
        country_bounds := Bounds 49 24 (-66) (-125);
        bucket := fun t =>
          match t with
          | states =>
              Some [ ("CA",
                      {| sub_name := "California";
                         sub_bounds := Bounds 42 32 (-114) (-125);
                         major_cities :=
                           Some [("San Francisco", Coordinates 37.77 (-122.42))];
                         landmarks :=
                           Some [("Golden Gate Bridge",
                                  {| lm_lat := 37.82; lm_lng := -122.48;
                                     lm_city := Some "San Francisco";
                                     lm_county := Some "San Francisco" |})] |}) ]
          | _ => None
          end |}) ].




(** *** Vocabulary of the geo-resolution pass *)

(** The field [k] of a record, when the value is an object that has it. *)
Definition field (k : string) (v : json) : option json :=
  match v with
  | JObj fields => get k fields
  | _ => None
  end.

Definition field_names (v : json) : list string :=
  match v with
  | JObj fields => keys fields
  | _ => []
  end.

(** The keys of [home_location] that the pass may write. *)
Definition place_keys : list string :=
  ["city"; "state"; "country"; "landmark"; "county"; "full_location"].

(** A [home_location] that is null or has no coordinates to resolve: the
    key is absent, or its value is null or empty. *)
Definition no_coordinates (home : json) : Prop :=
  home = JNull
  \/ exists fields,
       home = JObj fields
       /\ (get "coordinates" fields = None
           \/ exists c, get "coordinates" fields = Some c /\ is_true c = false).

(** An analysis record whose home location has coordinates: those of the
    landmark of [sample_db]. *)
Definition sample_home : list (string * json) :=
  [ ("city", JStr "Golden Gate"); ("state", JNull); ("country", JNull);
    ("postal_code", JNull); ("full_location", JStr "Golden Gate");
    ("count", JNum 4);
    ("coordinates", JObj [("lat", JNum 37.82); ("lng", JNum (-122.48))]) ].

Definition sample_record (home : list (string * json)) : json :=
  JObj [ ("username", JStr "anna");
         ("location_analysis",
          JObj [("total_locations", JNum 1); ("home_location", JObj home)]);
         ("personal_details", JObj [("bio_data", JStr "hi")]) ].

(** *** Collaborations: the tables and the listed entries *)















(** *** The leading category *)

(** [c], with score [s], is the first entry of maximal score: the entries
    before it score less, the entries after it do not score more. *)
Definition first_maximum (scores : dict Z) (c : string) (s : Z) : Prop :=
  exists pre post,
    scores = pre ++ (c, s) :: post
    /\ Forall (fun e => (snd e < s)%Z) pre
    /\ Forall (fun e => (snd e <= s)%Z) post.

(** *** Great-circle distance *)

(** The quantity under the square root in [haversine_distance]. *)
Definition haversine_a (lat1 lon1 lat2 lon2 : R) : R :=
  ((sin ((radians lat2 - radians lat1) / 2)) ^ 2
   + cos (radians lat1) * cos (radians lat2)
     * (sin ((radians lon2 - radians lon1) / 2)) ^ 2)%R.

(** *** The geo-resolution pass, once more *)

(** A record whose coordinates lack a latitude. *)
Definition broken_record : json :=
  JObj [ ("username", JStr "bob");
         ("location_analysis",
          JObj [("home_location",
                 JObj [("city", JStr "Lima");
                       ("coordinates", JObj [("lng", JNum 1)])])]) ].

(** *** Posting cadence *)



(** *** Whole words *)



(** *** Locations of the posts *)

(** The names of the located posts, in post order: the names that the loop
    of [analyze_locations] counts. *)
Definition counted_name (p : located_post) : option string :=
  match its_location p with
  | Some loc =>
      match tag_name loc with
      | Some name => if nonempty name then Some name else None
      | None => None
      end
  | None => None
  end.





(** The location of the first post tagged with the name [k]. *)
Fixpoint first_tagged (k : string) (posts : list located_post)
  : option location_tag :=
  match posts with
  | [] => None
  | p :: rest =>
      match counted_name p with
      | Some name =>
          if String.eqb name k then its_location p else first_tagged k rest
      | None => first_tagged k rest
      end
  end.


(** *** The texts a pattern can match *)

(** Zero or more texts of [L], one after the other. *)
Inductive star (L : string -> Prop) : string -> Prop :=
| star_nil : star L ""
| star_app (w1 w2 : string) : L w1 -> star L w2 -> star L (w1 ++ w2).

(** The texts that [r] can match, whatever stands around them: [\b] is
    counted as matching the empty text anywhere. *)
Fixpoint lang (r : regex) (w : string) : Prop :=
  match r with
  | Eps | WordB => w = ""
  | Cls p => exists c, w = String c "" /\ p c = true
  | Seq r1 r2 => exists w1 w2, w = (w1 ++ w2)%string /\ lang r1 w1 /\ lang r2 w2
  | Alt r1 r2 => lang r1 w \/ lang r2 w
  | Star r1 => star (lang r1) w
  | Grp r1 => lang r1 w
  end.

(** Every text that a group of [r] can capture satisfies [Q]. *)
Fixpoint grp_sound (Q : string -> Prop) (r : regex) : Prop :=
  match r with
  | Grp r1 => (forall w, lang r1 w -> Q w) /\ grp_sound Q r1
  | Seq r1 r2 | Alt r1 r2 => grp_sound Q r1 /\ grp_sound Q r2
  | Star r1 => grp_sound Q r1
  | Eps | Cls _ | WordB => True
  end.

Definition cap_sat (Q : string -> Prop) (st : mstate) : Prop :=
  match m_cap st with
  | Some g => Q g
  | None => True
  end.

(** Every character of [s] satisfies [p]. *)
Fixpoint all_chars (p : ascii -> bool) (s : string) : bool :=
  match s with
  | EmptyString => true
  | String c s' => p c && all_chars p s'
  end.

(** *** Phone numbers *)





(* ================================================================== *)
(** * Part II: properties                                              *)
(* ================================================================== *)

(** ** Rational comparisons *)



(** ** Gender *)

Lemma fold_left_nil {X Y : Type} (f : X -> Y -> X) (x : X) :
  fold_left f [] x = x.
Proof. reflexivity. Qed.

Lemma fold_left_cons {X Y : Type} (f : X -> Y -> X) (y : Y) (l : list Y)
  (x : X) :
  fold_left f (y :: l) x = fold_left f l (f x y).
Proof. reflexivity. Qed.

Lemma sumZ_cons (x : Z) (l : list Z) : sumZ (x :: l) = (x + sumZ l)%Z.
Proof. reflexivity. Qed.

Lemma sumZ_nonneg (l : list Z) :
  Forall (fun z => 0 <= z)%Z l -> (0 <= sumZ l)%Z.
Proof.
  induction 1 as [|z l Hz _ IH]; simpl; lia.
Qed.













(** ** The matcher: what a capture group can hold *)


Section RunInvariant.
Context {A : Type}.
Variable n : nat.


End RunInvariant.




(** ** Age *)


Lemma some_eq {X : Type} (x y : X) : Some x = Some y -> x = y.
Proof. congruence. Qed.





(** The loop returns a plausible age with its bucket, or nothing. *)
Lemma direct_age_sound (patterns : list regex) (text : string) (a : Z)
  (g : string) :
  direct_age patterns text = Some (a, g) ->
  (13 <= a <= 100)%Z /\ g = age_group_of a.
Proof.
  induction patterns as [|p ps IH]; simpl; [discriminate|].
  destruct (findall p text) as [|m ms]; [exact IH|].
  destruct (int_of m) as [v|]; [|exact IH].
  destruct ((13 <=? v)%Z && (v <=? 100)%Z) eqn:E; [|exact IH].
  intro H. inversion H; subst.
  apply andb_true_iff in E. destruct E as [E1 E2].
  apply Z.leb_le in E1, E2. auto.
Qed.







(** ** Dictionaries *)

Lemma get_set {V : Type} (k k' : string) (v : V) (d : dict V) :
  get k (set k' v d) = if String.eqb k k' then Some v else get k d.
Proof.
  induction d as [|[k0 v0] d IH]; simpl.
  - reflexivity.
  - destruct (String.eqb k' k0) eqn:E0; simpl.
    + apply String.eqb_eq in E0. subst k0.
      destruct (String.eqb k k') eqn:E; reflexivity.
    + destruct (String.eqb k k0) eqn:E1.
      * apply String.eqb_eq in E1. subst k0.
        destruct (String.eqb k k') eqn:E; [|reflexivity].
        apply String.eqb_eq in E. subst k'.
        rewrite String.eqb_refl in E0. discriminate.
      * exact IH.
Qed.

Lemma get0_set (k k' : string) (v : Z) (d : dict Z) :
  get0 k (set k' v d) = if String.eqb k k' then v else get0 k d.
Proof.
  unfold get0. rewrite get_set. destruct (String.eqb k k'); reflexivity.
Qed.

Lemma set_nonneg (k : string) (v : Z) (d : dict Z) :
  (0 <= v)%Z -> Forall (fun e => 0 <= snd e)%Z d ->
  Forall (fun e => 0 <= snd e)%Z (set k v d).
Proof.
  intros Hv. induction 1 as [|[k0 v0] d H0 Hd IH]; simpl.
  - constructor; [exact Hv | constructor].
  - destruct (String.eqb k k0); constructor; auto.
Qed.

Lemma get0_nonneg (k : string) (d : dict Z) :
  Forall (fun e => 0 <= snd e)%Z d -> (0 <= get0 k d)%Z.
Proof.
  unfold get0. induction 1 as [|[k0 v0] d H0 Hd IH]; simpl; [lia|].
  destruct (String.eqb k k0); [exact H0 | exact IH].
Qed.

Lemma keys_set_present {V : Type} (k : string) (v : V) (d : dict V) :
  has_key k d = true -> keys (set k v d) = keys d.
Proof.
  unfold has_key, keys. induction d as [|[k0 v0] d IH]; simpl; [discriminate|].
  destruct (String.eqb k k0); [reflexivity|].
  intro H. simpl. f_equal. exact (IH H).
Qed.

Lemma has_key_in {V : Type} (k : string) (d : dict V) :
  has_key k d = true <-> In k (keys d).
Proof.
  unfold has_key, keys. induction d as [|[k0 v0] d IH]; simpl.
  - split; [discriminate | tauto].
  - destruct (String.eqb k k0) eqn:E.
    + apply String.eqb_eq in E. subst. split; auto.
    + rewrite IH. apply String.eqb_neq in E. split; [auto|].
      intros [H|H]; [congruence | exact H].
Qed.

(** ** Substrings *)

Lemma prefix_spec (k t : string) :
  String.prefix k t = true <-> exists post, t = (k ++ post)%string.
Proof.
  revert t. induction k as [|c k IH]; intros t.
  - split; [intros _; exists t; reflexivity | intros _; destruct t; reflexivity].
  - destruct t as [|c' t]; simpl.
    + split; [discriminate | intros [p Hp]; discriminate].
    + destruct (ascii_dec c c') as [->|Hne].
      * rewrite IH. split; intros [p Hp]; exists p.
        -- rewrite Hp. reflexivity.
        -- inversion Hp. reflexivity.
      * split; [discriminate|]. intros [p Hp]. inversion Hp. congruence.
Qed.

(** [contains] is the substring test. *)
Lemma contains_spec (k t : string) :
  contains k t = true <-> exists pre post, t = (pre ++ k ++ post)%string.
Proof.
  induction t as [|c t IH].
  - cbn [contains]. rewrite orb_false_r. rewrite prefix_spec. split.
    + intros [p Hp]. exists ""%string, p. exact Hp.
    + intros [pre [post H]]. destruct pre; [exists post; exact H|discriminate].
  - cbn [contains]. rewrite orb_true_iff, prefix_spec, IH. split.
    + intros [[p Hp] | [pre [post H]]].
      * exists ""%string, p. exact Hp.
      * exists (String c pre), post. rewrite H. reflexivity.
    + intros [pre [post H]]. destruct pre as [|c' pre].
      * left. exists post. exact H.
      * right. exists pre, post. inversion H. reflexivity.
Qed.

Lemma any_keyword_in_spec (keywords : list string) (tag : string) :
  any_keyword_in keywords tag = true <->
  exists keyword pre post,
    In keyword keywords /\ tag = (pre ++ keyword ++ post)%string.
Proof.
  unfold any_keyword_in. rewrite existsb_exists. split.
  - intros [k [Hin Hc]]. apply contains_spec in Hc.
    destruct Hc as [pre [post H]]. exists k, pre, post. auto.
  - intros [k [pre [post [Hin H]]]]. exists k. split; [exact Hin|].
    apply contains_spec. exists pre, post. exact H.
Qed.

(** ** Niche scores *)

Lemma weight_set (P : string -> bool) (k : string) (d : dict Z) :
  weight P (set k (get0 k d + 1)%Z d)
  = (weight P d + if P k then 1 else 0)%Z.
Proof.
  unfold weight, get0. induction d as [|[k0 v0] d IH]; simpl.
  - destruct (P k); lia.
  - destruct (String.eqb k k0) eqn:E; simpl.
    + apply String.eqb_eq in E. subst k0. destruct (P k); lia.
    + rewrite IH. destruct (P k0), (P k); lia.
Qed.

Lemma weight_counts (P : string -> bool) (tags : list string) (d : dict Z) :
  weight P (fold_left count_tag tags d)
  = (weight P d
     + Z.of_nat (List.length (filter (fun h => P (lower h)) tags)))%Z.
Proof.
  revert d. induction tags as [|h tags IH]; intro d; simpl; [lia|].
  rewrite IH. unfold count_tag. rewrite weight_set.
  destruct (P (lower h)); simpl; lia.
Qed.

Lemma get0_counts (t : string) (tags : list string) (d : dict Z) :
  get0 t (fold_left count_tag tags d)
  = (get0 t d
     + Z.of_nat (List.length (filter (fun h => String.eqb (lower h) t) tags)))%Z.
Proof.
  revert d. induction tags as [|h tags IH]; intro d; simpl; [lia|].
  rewrite IH. unfold count_tag. rewrite get0_set.
  rewrite (String.eqb_sym (lower h) t).
  destruct (String.eqb t (lower h)) eqn:E; simpl; [|lia].
  apply String.eqb_eq in E. subst t. lia.
Qed.

Lemma score_fold_get0 (cats : dict (list string)) (cat : string)
  (entry : string * Z) (scores : dict Z) :
  get0 cat
    (fold_left
       (fun sc c =>
          if any_keyword_in (snd c) (fst entry)
          then set (fst c) (get0 (fst c) sc + snd entry)%Z sc
          else sc)
       cats scores)
  = (get0 cat scores + added cats cat entry)%Z.
Proof.
  unfold added. revert scores.
  induction cats as [|c cats IH]; intro scores; simpl; [lia|].
  rewrite IH.
  destruct (any_keyword_in (snd c) (fst entry)).
  - rewrite get0_set. destruct (String.eqb cat (fst c)) eqn:E; simpl; [|lia].
    apply String.eqb_eq in E. subst cat. lia.
  - rewrite andb_false_r. lia.
Qed.

Lemma added_unique (cats : dict (list string)) (cat : string)
  (kws : list string) (entry : string * Z) :
  NoDup (keys cats) -> In (cat, kws) cats ->
  added cats cat entry
  = if any_keyword_in kws (fst entry) then snd entry else 0%Z.
Proof.
  unfold added, keys.
  induction cats as [|[c0 k0] cats IH]; simpl; [tauto|].
  intros Hnd [Hin|Hin]; inversion Hnd as [|? ? Hnot Hnd']; subst.
  - inversion Hin; subst. rewrite String.eqb_refl. simpl.
    assert (Hz : sumZ (map (fun c => if String.eqb cat (fst c)
                                        && any_keyword_in (snd c) (fst entry)
                                     then snd entry else 0%Z) cats) = 0%Z).
    { clear IH Hnd Hnd'. induction cats as [|[c1 k1] cats IH1]; simpl; [reflexivity|].
      simpl in Hnot.
      destruct (String.eqb cat c1) eqn:E.
      - apply String.eqb_eq in E. subst. tauto.
      - simpl. apply IH1. tauto. }
    rewrite Hz. lia.
  - destruct (String.eqb cat c0) eqn:E.
    + apply String.eqb_eq in E. subst c0. exfalso. apply Hnot.
      apply in_map_iff. exists (cat, kws). auto.
    + simpl. exact (IH Hnd' Hin).
Qed.

Lemma niche_categories_nodup : NoDup (keys niche_categories).
Proof.
  unfold keys, niche_categories. simpl.
  repeat (constructor; [simpl; intuition discriminate|]). constructor.
Qed.

Lemma get0_initial (cats : dict (list string)) (cat : string) :
  get0 cat (map (fun c => (fst c, 0%Z)) cats) = 0%Z.
Proof.
  unfold get0. induction cats as [|c cats IH]; simpl; [reflexivity|].
  destruct (String.eqb cat (fst c)); [reflexivity | exact IH].
Qed.

Lemma score_tag_get0 (cat : string) (kws : list string) (e : string * Z)
  (scores : dict Z) :
  In (cat, kws) niche_categories ->
  get0 cat (score_tag scores e)
  = (get0 cat scores + if any_keyword_in kws (fst e) then snd e else 0)%Z.
Proof.
  intro Hin. unfold score_tag. rewrite score_fold_get0.
  f_equal. exact (added_unique _ _ kws e niche_categories_nodup Hin).
Qed.

Lemma score_tags_get0 (cat : string) (kws : list string) (counts : dict Z)
  (scores : dict Z) :
  In (cat, kws) niche_categories ->
  get0 cat (fold_left score_tag counts scores)
  = (get0 cat scores + weight (any_keyword_in kws) counts)%Z.
Proof.
  intro Hin. unfold weight. revert scores.
  induction counts as [|e counts IH]; intro scores.
  - rewrite fold_left_nil. change (sumZ (map _ [])) with 0%Z. lia.
  - rewrite fold_left_cons, map_cons, sumZ_cons, IH,
      (score_tag_get0 cat kws e scores Hin). lia.
Qed.

(** The score of a category is the number of hashtag occurrences whose
    lower-case form holds one of its keywords. *)
Lemma niche_score_count (posts : list post) (cat : string) (kws : list string) :
  In (cat, kws) niche_categories ->
  get0 cat (niche_scores posts)
  = weight (any_keyword_in kws) (hashtag_counts posts)
  /\ get0 cat (niche_scores posts)
     = Z.of_nat (List.length
                   (filter (fun h => any_keyword_in kws (lower h))
                           (all_hashtags posts))).
Proof.
  intro Hin. unfold niche_scores.
  rewrite (score_tags_get0 cat kws _ _ Hin), get0_initial.
  split; [lia|].
  unfold hashtag_counts. rewrite weight_counts. unfold weight. simpl. lia.
Qed.

Lemma filter_length_le {X : Type} (f g : X -> bool) (l : list X) :
  (forall x, f x = true -> g x = true) ->
  (List.length (filter f l) <= List.length (filter g l))%nat.
Proof.
  intro H. induction l as [|x l IH]; simpl; [lia|].
  destruct (f x) eqn:E.
  - rewrite (H x E). simpl. lia.
  - destruct (g x); simpl; lia.
Qed.

(** C7. For every category, the score is the sum, over the counted
    hashtags, of the count of each hashtag in which some keyword of the
    category occurs as a substring of the lower-case hashtag, that is the
    number of hashtag occurrences with such a keyword; the count of a
    hashtag is the number of its occurrences. So the count of "fitfam" is
    part of the Fitness score, as for a caption with "#fitfam". *)
Theorem niche_score_substring_match (posts : list post) :
  Forall
    (fun cat =>
       get0 (fst cat) (niche_scores posts)
       = sumZ (map (fun e => if any_keyword_in (snd cat) (fst e)
                             then snd e else 0%Z)
                   (hashtag_counts posts))
       /\ get0 (fst cat) (niche_scores posts)
          = Z.of_nat (List.length
                        (filter (fun h => any_keyword_in (snd cat) (lower h))
                                (all_hashtags posts))))
    niche_categories
  /\ (forall keywords tag,
        any_keyword_in keywords tag = true <->
        exists keyword pre post,
          In keyword keywords /\ tag = (pre ++ keyword ++ post)%string)
  /\ (forall tag,
        get0 tag (hashtag_counts posts)
        = Z.of_nat (List.length
                      (filter (fun h => String.eqb (lower h) tag)
                              (all_hashtags posts))))
  /\ (get0 "fitfam" (hashtag_counts posts)
      <= get0 "Fitness" (niche_scores posts))%Z
  /\ get0 "Fitness"
       (niche_scores [Post None (Some "leg day #FitFam") None 0 0 None None []])
     = 1%Z.
Proof.
  assert (Hcount : forall tag,
             get0 tag (hashtag_counts posts)
             = Z.of_nat (List.length
                           (filter (fun h => String.eqb (lower h) tag)
                                   (all_hashtags posts)))).
  { intro tag. unfold hashtag_counts. rewrite get0_counts. reflexivity. }
  split; [|split; [exact any_keyword_in_spec|split; [exact Hcount|split]]].
  - apply Forall_forall. intros [cat kws] Hin.
    exact (niche_score_count posts cat kws Hin).
  - rewrite Hcount.
    assert (Hin : In ("Fitness", ["fitness"; "workout"; "gym"; "exercise";
                                  "health"; "training"; "muscle"; "fit"])
                     niche_categories).
    { unfold niche_categories. simpl. tauto. }
    destruct (niche_score_count posts _ _ Hin) as [_ ->].
    apply inj_le. apply filter_length_le.
    intros h Hh. apply String.eqb_eq in Hh. rewrite Hh. reflexivity.
  - vm_compute. reflexivity.
Qed.

(** ** Rounding *)

Lemma round_half_even_error (n d : Z) :
  (0 < d)%Z -> (2 * Z.abs (round_half_even n d * d - n) <= d)%Z.
Proof.
  intro Hd. unfold round_half_even.
  pose proof (Z.div_mod n d ltac:(lia)) as Hdm.
  pose proof (Z.mod_pos_bound n d Hd) as Hr.
  set (q := (n / d)%Z) in *. set (r := (n mod d)%Z) in *.
  assert (Hq : (q * d = n - r)%Z) by lia.
  assert (Hq1 : ((q + 1) * d = n - r + d)%Z) by lia.
  destruct (Z.ltb_spec (2 * r) d).
  - rewrite Hq. lia.
  - destruct (Z.ltb_spec d (2 * r)).
    + rewrite Hq1. lia.
    + destruct (Z.even q); [rewrite Hq | rewrite Hq1]; lia.
Qed.

Lemma round0_error (y : Q) :
  - (1 # 2) <= inject_Z (round0 y) - y <= 1 # 2.
Proof.
  destruct y as [n d]. unfold round0. cbn [Qnum Qden].
  pose proof (round_half_even_error n (Zpos d) ltac:(lia)) as H.
  set (r := round_half_even n (Zpos d)) in *.
  unfold Qle, Qminus, Qplus, Qopp, inject_Z. cbn [Qnum Qden].
  rewrite ?Pos.mul_1_l, ?Pos.mul_1_r, ?Pos2Z.inj_mul.
  split; lia.
Qed.

Lemma round1_error (x : Q) :
  - (1 # 20) <= round1 x - x <= 1 # 20.
Proof.
  unfold round1.
  pose proof (round0_error (x * 10)) as [H1 H2].
  set (r := round0 (x * 10)) in *.
  assert (Hr : r # 10 == inject_Z r * (1 # 10)).
  { unfold Qeq, Qmult, inject_Z. cbn [Qnum Qden]. lia. }
  rewrite Hr. split; lra.
Qed.

Lemma sumQ_cons (x : Q) (l : list Q) : sumQ (x :: l) = x + sumQ l.
Proof. reflexivity. Qed.

(** The rounded shares of [L] in [T] add up to the share of their sum, up
    to 0.05 a share. *)
Lemma sum_round1 (T : Z) (L : list Z) :
  (0 < T)%Z ->
  let shares := map (fun s => round1 (inject_Z s / inject_Z T * 100)) L in
  let k := inject_Z (Z.of_nat (List.length L)) in
  - ((1 # 20) * k) <= sumQ shares - inject_Z (sumZ L) / inject_Z T * 100
  /\ sumQ shares - inject_Z (sumZ L) / inject_Z T * 100 <= (1 # 20) * k.
Proof.
  intros HT.
  assert (HTq : ~ inject_Z T == 0).
  { intro H. unfold Qeq, inject_Z in H. cbn [Qnum Qden] in H. lia. }
  induction L as [|s L IH]; cbv zeta in *.
  - cbn [map sumQ fold_right sumZ List.length Z.of_nat].
    unfold Qdiv. change (inject_Z 0) with 0. set (z := / inject_Z T).
    split; lra.
  - rewrite map_cons, sumQ_cons, sumZ_cons.
    pose proof (round1_error (inject_Z s / inject_Z T * 100)) as [E1 E2].
    destruct IH as [I1 I2].
    assert (Hk : inject_Z (Z.of_nat (List.length (s :: L)))
                 == inject_Z (Z.of_nat (List.length L)) + 1).
    { cbn [List.length]. rewrite Nat2Z.inj_succ. unfold Z.succ.
      rewrite inject_Z_plus. reflexivity. }
    assert (Hs : inject_Z (s + sumZ L) / inject_Z T * 100
                 == inject_Z s / inject_Z T * 100
                    + inject_Z (sumZ L) / inject_Z T * 100).
    { rewrite inject_Z_plus. field. exact HTq. }
    rewrite Hk, Hs. split; lra.
Qed.

(** ** The distribution of the niche scores *)

Lemma fold_left_inv {X Y : Type} (P : X -> Prop) (f : X -> Y -> X)
  (l : list Y) (x : X) :
  (forall x y, In y l -> P x -> P (f x y)) -> P x -> P (fold_left f l x).
Proof.
  revert x. induction l as [|y l IH]; intros x Hstep Hx.
  - exact Hx.
  - rewrite fold_left_cons. apply IH.
    + intros x' y' Hin. apply Hstep. right. exact Hin.
    + apply Hstep; [left; reflexivity | exact Hx].
Qed.

Lemma hashtag_counts_nonneg (posts : list post) :
  nonneg_values (hashtag_counts posts).
Proof.
  unfold hashtag_counts. apply (fold_left_inv nonneg_values).
  - intros d t _ Hd. unfold count_tag. apply set_nonneg; [|exact Hd].
    pose proof (get0_nonneg (lower t) d Hd). lia.
  - constructor.
Qed.

Lemma score_tag_nonneg (scores : dict Z) (e : string * Z) :
  (0 <= snd e)%Z -> nonneg_values scores -> nonneg_values (score_tag scores e).
Proof.
  intros He Hs. unfold score_tag. apply (fold_left_inv nonneg_values).
  - intros sc c _ Hsc. destruct (any_keyword_in (snd c) (fst e)); [|exact Hsc].
    apply set_nonneg; [|exact Hsc].
    pose proof (get0_nonneg (fst c) sc Hsc). lia.
  - exact Hs.
Qed.

Lemma niche_scores_nonneg (posts : list post) :
  nonneg_values (niche_scores posts).
Proof.
  unfold niche_scores. apply (fold_left_inv nonneg_values).
  - intros sc e Hin Hsc. apply score_tag_nonneg; [|exact Hsc].
    pose proof (hashtag_counts_nonneg posts) as H.
    unfold nonneg_values in H. rewrite Forall_forall in H. exact (H e Hin).
  - unfold nonneg_values. apply Forall_forall. intros e He.
    apply in_map_iff in He. destruct He as [c [<- _]]. simpl. lia.
Qed.

Lemma score_tag_keys (scores : dict Z) (e : string * Z) :
  keys scores = keys niche_categories ->
  keys (score_tag scores e) = keys niche_categories.
Proof.
  intro Hk. unfold score_tag.
  apply (fold_left_inv (fun sc => keys sc = keys niche_categories)).
  - intros sc c Hin Hsc. destruct (any_keyword_in (snd c) (fst e)); [|exact Hsc].
    rewrite keys_set_present; [exact Hsc|].
    apply has_key_in. rewrite Hsc. unfold keys. apply in_map. exact Hin.
  - exact Hk.
Qed.

(** The scores keep one entry for each of the twenty categories. *)
Lemma niche_scores_keys (posts : list post) :
  keys (niche_scores posts) = keys niche_categories.
Proof.
  unfold niche_scores.
  apply (fold_left_inv (fun sc => keys sc = keys niche_categories)).
  - intros sc e _ Hsc. apply score_tag_keys. exact Hsc.
  - unfold keys. rewrite map_map. reflexivity.
Qed.

Lemma niche_scores_length (posts : list post) :
  List.length (niche_scores posts) = 20%nat.
Proof.
  pose proof (f_equal (@List.length string) (niche_scores_keys posts)) as H.
  unfold keys in H. rewrite !length_map in H. exact H.
Qed.

Lemma filter_length_bound {X : Type} (f : X -> bool) (l : list X) :
  (List.length (filter f l) <= List.length l)%nat.
Proof.
  induction l as [|x l IH]; simpl; [lia|]. destruct (f x); simpl; lia.
Qed.

Lemma sum_scored (d : dict Z) :
  nonneg_values d ->
  sumZ (values d) = sumZ (map snd (filter (fun e => (0 <? snd e)%Z) d)).
Proof.
  unfold values. induction 1 as [|e d He _ IH]; [reflexivity|].
  rewrite map_cons, sumZ_cons. cbn [filter].
  destruct (Z.ltb_spec 0 (snd e)).
  - rewrite map_cons, sumZ_cons. lia.
  - lia.
Qed.

Lemma sum_positive (d : dict Z) :
  nonneg_values d -> (exists e, In e d /\ (0 < snd e)%Z) ->
  (0 < sumZ (values d))%Z.
Proof.
  unfold values. induction 1 as [|e d He Hd IH]; intros [e0 [Hin Hpos]].
  - destruct Hin.
  - rewrite map_cons, sumZ_cons.
    assert (0 <= sumZ (map snd d))%Z.
    { apply sumZ_nonneg. apply Forall_forall. intros z Hz.
      apply in_map_iff in Hz. destruct Hz as [e1 [<- H1]].
      unfold nonneg_values in Hd. rewrite Forall_forall in Hd. exact (Hd e1 H1). }
    destruct Hin as [->|Hin]; [lia|].
    specialize (IH (ex_intro _ e0 (conj Hin Hpos))). lia.
Qed.

Lemma forallb_filter_id {X : Type} (f : X -> bool) (l : list X) :
  forallb f l = true -> filter f l = l.
Proof.
  induction l as [|x l IH]; simpl; [reflexivity|].
  intro H. apply andb_true_iff in H. destruct H as [Hx Hl].
  rewrite Hx, (IH Hl). reflexivity.
Qed.

Lemma sumQ_filter_le (f : Q -> bool) (l : list Q) :
  Forall (fun v => 0 <= v) l -> sumQ (filter f l) <= sumQ l.
Proof.
  induction 1 as [|v l Hv _ IH]; cbn [filter]; [apply Qle_refl|].
  destruct (f v); rewrite ?sumQ_cons; lra.
Qed.

Lemma distribution_filter (posts : list post) :
  distribution (identify_niche posts)
  = filter (fun e => Qle_bool 2 (snd e)) (percentages (niche_scores posts)).
Proof. reflexivity. Qed.

(** The percentages before the filter are within rounding of 100. *)
Lemma percentages_sum (scores : dict Z) :
  nonneg_values scores -> (exists e, In e scores /\ (0 < snd e)%Z) ->
  Qabs (sumQ (values (percentages scores)) - 100)
  <= (1 # 20) * inject_Z (Z.of_nat (List.length (percentages scores))).
Proof.
  intros Hnn Hex.
  pose proof (sum_positive scores Hnn Hex) as Hpos.
  pose proof (sum_scored scores Hnn) as Hsum.
  unfold percentages, total_score.
  destruct (Z.eqb_spec (sumZ (values scores)) 0) as [H0|_]; [lia|].
  set (T := sumZ (values scores)) in *.
  set (L := filter (fun e => (0 <? snd e)%Z) scores) in *.
  unfold values. rewrite map_map. cbn [snd].
  rewrite length_map.
  pose proof (sum_round1 T (map snd L) Hpos) as Hr. cbv zeta in Hr.
  rewrite map_map, length_map in Hr. rewrite <- Hsum in Hr.
  assert (HT : inject_Z T / inject_Z T * 100 == 100).
  { field. intro H. unfold Qeq, inject_Z in H. cbn [Qnum Qden] in H. lia. }
  rewrite HT in Hr. destruct Hr as [H1 H2].
  apply Qabs_Qle_condition. split; lra.
Qed.

Lemma round_half_even_nonneg (n d : Z) :
  (0 <= n)%Z -> (0 < d)%Z -> (0 <= round_half_even n d)%Z.
Proof.
  intros Hn Hd. unfold round_half_even.
  pose proof (Z.div_pos n d Hn Hd).
  destruct (2 * (n mod d) <? d)%Z; [lia|].
  destruct (d <? 2 * (n mod d))%Z; [lia|].
  destruct (Z.even (n / d)); lia.
Qed.

Lemma round1_nonneg (x : Q) : 0 <= x -> 0 <= round1 x.
Proof.
  intro Hx. unfold round1, round0.
  assert (H : (0 <= Qnum (x * 10))%Z).
  { destruct x as [n d]. unfold Qle in Hx. cbn in Hx. cbn [Qmult Qnum Qden]. lia. }
  pose proof (round_half_even_nonneg _ (Zpos (Qden (x * 10))) H ltac:(lia)) as Hr.
  unfold Qle. cbn [Qnum Qden]. lia.
Qed.

Lemma total_score_positive (scores : dict Z) :
  nonneg_values scores -> (0 < total_score scores)%Z.
Proof.
  intro Hnn. unfold total_score.
  assert (0 <= sumZ (values scores))%Z.
  { apply sumZ_nonneg. apply Forall_forall. intros z Hz.
    apply in_map_iff in Hz. destruct Hz as [e [<- He]].
    unfold nonneg_values in Hnn. rewrite Forall_forall in Hnn. exact (Hnn e He). }
  destruct (Z.eqb_spec (sumZ (values scores)) 0); lia.
Qed.

Lemma percentages_nonneg (scores : dict Z) :
  nonneg_values scores -> Forall (fun e => 0 <= snd e) (percentages scores).
Proof.
  intro Hnn. pose proof (total_score_positive scores Hnn) as Ht.
  unfold percentages. apply Forall_forall. intros e He.
  apply in_map_iff in He. destruct He as [c [<- Hc]].
  apply filter_In in Hc. destruct Hc as [_ Hc]. apply Z.ltb_lt in Hc.
  cbn [snd]. apply round1_nonneg.
  apply Qmult_le_0_compat; [|discriminate].
  apply Qle_shift_div_l.
  - change 0 with (inject_Z 0). rewrite <- Zlt_Qlt. exact Ht.
  - rewrite Qmult_0_l. change 0 with (inject_Z 0). rewrite <- Zle_Qle. lia.
Qed.

Lemma sumQ_values_filter_le (f : string * Q -> bool) (d : dict Q) :
  Forall (fun e => 0 <= snd e) d ->
  sumQ (values (filter f d)) <= sumQ (values d).
Proof.
  unfold values. induction 1 as [|e d He _ IH]; cbn [filter map].
  - apply Qle_refl.
  - destruct (f e); rewrite ?map_cons, ?sumQ_cons; lra.
Qed.

(** C6, as the code has it. When a category scored, the percentages of the
    scoring categories add up to 100 within 0.05 for each of them (at most
    twenty); the returned distribution is these percentages without the
    ones under 2, so its sum can only be lower, and it is within the same
    rounding error of 100 when no scoring category is under 2 per cent. *)
Theorem distribution_sum_rounding (posts : list post) :
  (exists cat, In cat (niche_scores posts) /\ (0 < snd cat)%Z) ->
  let shares := percentages (niche_scores posts) in
  let d := distribution (identify_niche posts) in
  d = filter (fun e => Qle_bool 2 (snd e)) shares
  /\ Qabs (sumQ (values shares) - 100)
     <= (1 # 20) * inject_Z (Z.of_nat (List.length shares))
  /\ (List.length shares <= 20)%nat
  /\ sumQ (values d) <= sumQ (values shares)
  /\ (forallb (fun e => Qle_bool 2 (snd e)) shares = true ->
      Qabs (sumQ (values d) - 100)
      <= (1 # 20) * inject_Z (Z.of_nat (List.length d))
      /\ Qabs (sumQ (values d) - 100) <= 1).
Proof.
  intros Hex shares d.
  pose proof (percentages_sum _ (niche_scores_nonneg posts) Hex) as Hsum.
  fold shares in Hsum.
  assert (Hlen : (List.length shares <= 20)%nat).
  { unfold shares, percentages. rewrite length_map.
    pose proof (filter_length_bound (fun e => (0 <? snd e)%Z) (niche_scores posts)).
    rewrite niche_scores_length in H. exact H. }
  assert (Hd : d = filter (fun e => Qle_bool 2 (snd e)) shares)
    by apply distribution_filter.
  split; [exact Hd|]. split; [exact Hsum|]. split; [exact Hlen|].
  split.
  - rewrite Hd. apply sumQ_values_filter_le. apply percentages_nonneg.
    apply niche_scores_nonneg.
  - intro Hall. rewrite Hd, (forallb_filter_id _ _ Hall).
    split; [exact Hsum|].
    eapply Qle_trans; [exact Hsum|].
    assert (Hk : inject_Z (Z.of_nat (List.length shares)) <= 20).
    { change 20 with (inject_Z 20). rewrite <- Zle_Qle. lia. }
    lra.
Qed.

Lemma distribution_sum_rounding_witness :
  let posts := [Post None (Some "#fashion #makeup") None 0 0 None None []] in
  (exists cat, In cat (niche_scores posts) /\ (0 < snd cat)%Z)
  /\ Qabs (sumQ (values (percentages (niche_scores posts))) - 100)
     <= (1 # 20) * inject_Z (Z.of_nat (List.length (percentages (niche_scores posts)))).
Proof.
  intro posts.
  assert (H : exists cat, In cat (niche_scores posts) /\ (0 < snd cat)%Z).
  { exists ("Fashion & Style", 1%Z). split; [|reflexivity].
    vm_compute. left. reflexivity. }
  split; [exact H|].
  exact (proj1 (proj2 (distribution_sum_rounding posts H))).
Defined.

(** C6 fails as stated: with 51 posts tagged "#fashion" and one tagged
    "#makeup", Beauty has 1.9 per cent and is dropped, and the distribution
    sums to 98.1, further from 100 than twenty roundings can account for. *)
Lemma distribution_sum_counterexample :
  let posts :=
    repeat (Post None (Some "#fashion") None 0 0 None None []) 51
    ++ [Post None (Some "#makeup") None 0 0 None None []] in
  (exists cat, In cat (niche_scores posts) /\ (0 < snd cat)%Z)
  /\ distribution (identify_niche posts) = [("Fashion & Style", 981 # 10)]
  /\ ~ Qabs (sumQ (values (distribution (identify_niche posts))) - 100) <= 1.
Proof.
  intro posts.
  split; [|split].
  - exists ("Fashion & Style", 51%Z). split; [|reflexivity].
    vm_compute. left. reflexivity.
  - vm_compute. reflexivity.
  - intro H. apply Qle_bool_iff in H. vm_compute in H. discriminate.
Qed.

(** ** Collaboration detector: the loops never raise *)












(** ** Collaboration detector: the listed brands *)









(** ** Collaboration detector: the status chain *)







(** ** The "chris" correction *)

Lemma detect_gender_two_cases cfg bio captions first_name niche :
  fst (detect_gender_from_text cfg bio captions first_name niche) = Female
  \/ fst (detect_gender_from_text cfg bio captions first_name niche) = Male.
Proof.
  destruct (fst (detect_gender_from_text cfg bio captions first_name niche));
    auto.
Qed.





(** ** Posting cadence without timestamps *)

Lemma timestamps_without (posts : list post) :
  timestamps (map without_timestamp posts) = [].
Proof.
  unfold timestamps. induction posts as [|p posts IH]; [reflexivity|].
  cbn [map flat_map without_timestamp taken_at app]. exact IH.
Qed.

(** What C3 denies and the code does: for a non-empty post list in which no
    post has a [taken_at] timestamp, [analyze_post_info] reads the locals
    that only [if post_timestamps:] assigns and raises, whatever the
    analysis so far, and [analyze_creator_data] yields no record. *)
Theorem analyze_post_info_unbound (cfg : config) (clk : clock) (user : profile)
  (a : analysis) (p : post) (posts : list post) :
  analyze_post_info clk (map without_timestamp (p :: posts)) a
  = Raise UnboundLocalError
  /\ analyze_creator_data cfg clk user (map without_timestamp (p :: posts))
     = None.
Proof.
  assert (H : forall a0, analyze_post_info clk
                           (map without_timestamp (p :: posts)) a0
                         = Raise UnboundLocalError).
  { intro a0. unfold analyze_post_info.
    rewrite (timestamps_without (p :: posts)). reflexivity. }
  split; [apply H|].
  unfold analyze_creator_data.
  destruct (analyze_user_info cfg clk user (map without_timestamp (p :: posts)))
    as [a1|e]; cbn [bind]; [rewrite H|]; reflexivity.
Qed.

(** ** Geo-resolution: comparisons and searches *)

(** Linear arithmetic over the reals ([lra] alone is the one over the
    rationals here). *)
Ltac lraR := Lra.lra.

Lemma Rleb_true (x y : R) : Rleb x y = true <-> (x <= y)%R.
Proof.
  unfold Rleb. destruct (Rle_dec x y); split; auto; discriminate.
Qed.



Section FirstMatch.
Context {X : Type}.
Variable P : X -> Prop.





End FirstMatch.






(** The loop that keeps the nearest candidate seen so far. *)
Section Nearest.
Context {X : Type}.
Variable ok : X -> Prop.
Variable okb : X -> bool.
Variable dist : X -> R.
Hypothesis okb_spec : forall x, okb x = true <-> ok x.




End Nearest.




(** ** Geo-resolution: the resolved place *)



Lemma nonempty_true (s : string) : s <> "" -> nonempty s = true.
Proof. destruct s; [congruence | reflexivity]. Qed.

Lemma truthy_some (s : string) : s <> "" -> truthy (Some s) = true.
Proof. exact (nonempty_true s). Qed.








Lemma haversine_same_point (lat lng : R) :
  haversine_distance lat lng lat lng = 0%R.
Proof.
  unfold haversine_distance. cbv zeta.
  replace (radians lng - radians lng)%R with 0%R by ring.
  replace (radians lat - radians lat)%R with 0%R by ring.
  replace (0 / 2)%R with 0%R by field.
  rewrite sin_0.
  replace (0 ^ 2 + cos (radians lat) * cos (radians lat) * 0 ^ 2)%R
    with 0%R by ring.
  rewrite sqrt_0, asin_0. ring.
Qed.

(** The sample point is the landmark itself. *)
Example determine_location_sample :
  determine_location 37.82 (-122.48) sample_db
  = {| city := Some "San Francisco";
       state := Some "California";
       country := Some "United States";
       county := Some "San Francisco";
       landmark := Some "Golden Gate Bridge";
       postal_code := None;
       full_location :=
         Some "Golden Gate Bridge, San Francisco, San Francisco County, California, United States";
       approximate := true |}.
Proof.
  unfold determine_location, sample_db.
  repeat first
    [ progress cbn [find_country country_bounds north south east west andb
                    find_subdivision_in subdivision_types bucket first_within
                    sub_bounds landmarks major_cities fold_left snd fst
                    lm_lat lm_lng lm_city lm_county closer nonempty truthy
                    negb sub_name country_name]
    | progress unfold is_within_bounds, find_subdivision, find_landmark
    | rewrite haversine_same_point
    | match goal with
      | |- context [Rleb ?a ?b] => rewrite (proj2 (Rleb_true a b)) by lraR
      end ].
  reflexivity.
Qed.

(** ** The geo-resolution pass *)

Lemma get_set_other {V : Type} (k k' : string) (v : V) (d : dict V) :
  k <> k' -> get k (set k' v d) = get k d.
Proof.
  intro H. rewrite get_set. apply String.eqb_neq in H. rewrite H. reflexivity.
Qed.


(** What [process_user] can return. *)
Lemma process_user_cases (db : gps_db) (user user' : json) :
  process_user db user = Ok user' ->
  user' = user
  \/ exists user_fields la_fields home_fields coords lat lng,
       user = JObj user_fields
       /\ get "location_analysis" user_fields = Some (JObj la_fields)
       /\ get "home_location" la_fields = Some (JObj home_fields)
       /\ get "coordinates" home_fields = Some coords
       /\ is_true coords = true
       /\ (lat_v <- py_item coords "lat" ;; as_number lat_v) = Ok lat
       /\ (lng_v <- py_item coords "lng" ;; as_number lng_v) = Ok lng
       /\ user'
          = JObj (set "location_analysis"
                    (JObj (set "home_location"
                             (JObj (patch_home (determine_location lat lng db)
                                               home_fields))
                             la_fields))
                    user_fields).
Proof.
  unfold process_user. intro H.
  destruct (py_in "location_analysis" user) as [has_la|] eqn:E1;
    [|discriminate].
  cbn [bind] in H. destruct has_la; [|left; congruence].
  destruct (py_item user "location_analysis") as [la|] eqn:E2; [|discriminate].
  cbn [bind] in H.
  destruct (py_in "home_location" la) as [has_home|] eqn:E3; [|discriminate].
  cbn [bind] in H. destruct has_home; [|left; congruence].
  destruct (py_item la "home_location") as [home|] eqn:E4; [|discriminate].
  cbn [bind] in H.
  destruct (coordinates_of home) as [found|] eqn:E5; [|discriminate].
  cbn [bind] in H. destruct found as [coords|]; [|left; congruence].
  destruct (py_item coords "lat") as [lat_v|] eqn:E6; [|discriminate].
  cbn [bind] in H.
  destruct (py_item coords "lng") as [lng_v|] eqn:E7; [|discriminate].
  cbn [bind] in H.
  destruct (as_number lat_v) as [lat|] eqn:E8; [|discriminate].
  cbn [bind] in H.
  destruct (as_number lng_v) as [lng|] eqn:E9; [|discriminate].
  cbn [bind] in H.
  destruct user as [| | | | |user_fields]; try discriminate.
  destruct la as [| | | | |la_fields]; try discriminate.
  destruct home as [| | | | |home_fields]; try discriminate.
  right. exists user_fields, la_fields, home_fields, coords, lat, lng.
  cbn [py_item] in E2, E4. unfold subscript in E2, E4.
  destruct (get "location_analysis" user_fields) as [la0|] eqn:G1;
    [|discriminate].
  destruct (get "home_location" la_fields) as [h0|] eqn:G2; [|discriminate].
  inversion E2; subst la0. inversion E4; subst h0.
  unfold coordinates_of in E5.
  destruct (is_true (JObj home_fields)); [|discriminate].
  cbn [py_in bind] in E5.
  destruct (has_key "coordinates" home_fields) eqn:G3; [|discriminate].
  cbn [py_item] in E5. unfold subscript in E5.
  destruct (get "coordinates" home_fields) as [c0|] eqn:G4; [|discriminate].
  cbn [bind] in E5.
  destruct (is_true c0) eqn:G5; [|discriminate].
  inversion E5; subst c0.
  rewrite E6, E7. cbn [bind]. rewrite E8, E9.
  repeat split; try reflexivity; try assumption.
  inversion H. reflexivity.
Qed.

(** The assignments leave every other key of [home_location] alone. *)
Lemma patch_home_frame (loc : location) (home : list (string * json))
  (k : string) :
  ~ In k place_keys -> get k (patch_home loc home) = get k home.
Proof.
  intro Hk. unfold place_keys in Hk. cbn [In] in Hk.
  assert (H1 : k <> "city") by (intro; subst; apply Hk; auto 10).
  assert (H2 : k <> "state") by (intro; subst; apply Hk; auto 10).
  assert (H3 : k <> "country") by (intro; subst; apply Hk; auto 10).
  assert (H4 : k <> "landmark") by (intro; subst; apply Hk; auto 10).
  assert (H5 : k <> "county") by (intro; subst; apply Hk; auto 10).
  assert (H6 : k <> "full_location") by (intro; subst; apply Hk; auto 10).
  unfold patch_home.
  repeat match goal with
         | |- context [if ?b then _ else _] => destruct b
         end;
    repeat rewrite get_set_other by assumption; reflexivity.
Qed.

Lemma process_user_no_coordinates (db : gps_db)
  (user_fields la_fields : list (string * json)) (home : json) :
  get "location_analysis" user_fields = Some (JObj la_fields) ->
  get "home_location" la_fields = Some home ->
  no_coordinates home ->
  process_user db (JObj user_fields) = Ok (JObj user_fields).
Proof.
  intros G1 G2 Hno. unfold process_user.
  cbn [py_in py_item bind]. unfold has_key, subscript. rewrite G1.
  cbn [bind py_in py_item]. unfold has_key, subscript. rewrite G2.
  cbn [bind].
  assert (Hc : coordinates_of home = Ok None).
  { unfold coordinates_of.
    destruct Hno as [->|[fields [-> [Hg|[c [Hg Hc]]]]]].
    - reflexivity.
    - destruct (is_true (JObj fields)); [|reflexivity].
      cbn [py_in bind]. unfold has_key. rewrite Hg. reflexivity.
    - destruct (is_true (JObj fields)); [|reflexivity].
      cbn [py_in py_item bind]. unfold has_key, subscript. rewrite Hg.
      cbn [bind]. rewrite Hc. reflexivity. }
  rewrite Hc. reflexivity.
Qed.

Lemma process_user_with_coordinates (db : gps_db)
  (user_fields la_fields home_fields coords : list (string * json))
  (lat lng : R) :
  get "location_analysis" user_fields = Some (JObj la_fields) ->
  get "home_location" la_fields = Some (JObj home_fields) ->
  get "coordinates" home_fields = Some (JObj coords) ->
  get "lat" coords = Some (JNum lat) ->
  get "lng" coords = Some (JNum lng) ->
  process_user db (JObj user_fields)
  = Ok (JObj (set "location_analysis"
                (JObj (set "home_location"
                         (JObj (patch_home (determine_location lat lng db)
                                           home_fields))
                         la_fields))
                user_fields)).
Proof.
  intros G1 G2 G3 G4 G5. unfold process_user, coordinates_of.
  cbn [py_in py_item bind]. unfold has_key, subscript. rewrite G1.
  cbn [bind py_in py_item]. unfold has_key, subscript. rewrite G2.
  cbn [bind py_in py_item is_true].
  destruct home_fields as [|e0 home_rest]; [discriminate|].
  unfold has_key, subscript. rewrite G3. cbn [bind is_true].
  destruct coords as [|c0 coords_rest]; [discriminate|].
  cbn [py_item bind]. unfold subscript. rewrite G4, G5.
  reflexivity.
Qed.

Lemma process_records_each (db : gps_db) (data done out : list json) :
  foldM (fun done user => user' <- process_user db user ;; Ok (done ++ [user']))
        data done = Ok out ->
  exists data',
    out = done ++ data'
    /\ Forall2 (fun user user' => process_user db user = Ok user') data data'.
Proof.
  revert done. induction data as [|user data IH]; intros done H.
  - cbn [foldM] in H. inversion H. exists []. rewrite app_nil_r.
    split; [reflexivity | constructor].
  - cbn [foldM] in H.
    destruct (process_user db user) as [user'|] eqn:E; [|discriminate].
    cbn [bind] in H. destruct (IH _ H) as [data' [-> HF]].
    exists (user' :: data'). rewrite <- app_assoc. split; [reflexivity|].
    constructor; assumption.
Qed.

(** C9. A record that the pass returns differs from the record it read in
    the [home_location] object of [location_analysis] at most: every other
    field of the record and of [location_analysis] is the same, with the
    same field names in the same order, and within [home_location] only the
    place fields change. A record whose [home_location] is null or has no
    coordinates, or that has no [home_location] at all, is returned as it
    is; one with numeric coordinates is returned with the place resolved
    by [determine_location]. The collection that
    [process_instagram_data] writes holds, in order, what the pass returns
    for each record. *)
Theorem geo_pass_frame (db : gps_db) :
  (forall user user',
     process_user db user = Ok user' ->
     (forall k, k <> "location_analysis" -> field k user' = field k user)
     /\ field_names user' = field_names user
     /\ (forall la,
           field "location_analysis" user = Some la ->
           exists la',
             field "location_analysis" user' = Some la'
             /\ (forall k, k <> "home_location" -> field k la' = field k la)
             /\ field_names la' = field_names la
             /\ (forall home,
                   field "home_location" la = Some home ->
                   exists home',
                     field "home_location" la' = Some home'
                     /\ (forall k, ~ In k place_keys ->
                                   field k home' = field k home)
                     /\ (no_coordinates home -> home' = home))))
  /\ (forall user_fields la_fields home,
        get "location_analysis" user_fields = Some (JObj la_fields) ->
        get "home_location" la_fields = Some home ->
        no_coordinates home ->
        process_user db (JObj user_fields) = Ok (JObj user_fields))
  /\ (forall user_fields la_fields home_fields coords lat lng,
        get "location_analysis" user_fields = Some (JObj la_fields) ->
        get "home_location" la_fields = Some (JObj home_fields) ->
        get "coordinates" home_fields = Some (JObj coords) ->
        get "lat" coords = Some (JNum lat) ->
        get "lng" coords = Some (JNum lng) ->
        process_user db (JObj user_fields)
        = Ok (JObj (set "location_analysis"
                      (JObj (set "home_location"
                               (JObj (patch_home (determine_location lat lng db)
                                                 home_fields))
                               la_fields))
                      user_fields)))
  /\ (forall user_fields,
        get "location_analysis" user_fields = None ->
        process_user db (JObj user_fields) = Ok (JObj user_fields))
  /\ (forall user_fields la_fields,
        get "location_analysis" user_fields = Some (JObj la_fields) ->
        get "home_location" la_fields = None ->
        process_user db (JObj user_fields) = Ok (JObj user_fields))
  /\ (forall instagram_data updated_data,
        process_instagram_data db instagram_data = Ok updated_data ->
        Forall2 (fun user user' => process_user db user = Ok user')
                instagram_data updated_data).
Proof.
  split; [|split; [|split; [|split; [|split]]]].
  - intros user user' H.
    destruct (process_user_cases db user user' H)
      as [->|[uf [laf [hf [coords [lat [lng [-> [G1 [G2 [G3 [G4 [_ [_ ->]]]]]]]]]]]]]].
    + split; [reflexivity|]. split; [reflexivity|].
      intros la Hla. exists la. split; [exact Hla|].
      split; [reflexivity|]. split; [reflexivity|].
      intros home Hhome. exists home. split; [exact Hhome|].
      split; [reflexivity|]. reflexivity.
    + cbn [field field_names]. split; [|split].
      * intros k Hk. apply get_set_other. exact Hk.
      * apply keys_set_present. unfold has_key. rewrite G1. reflexivity.
      * intros la Hla. rewrite G1 in Hla. inversion Hla; subst la.
        eexists. split; [rewrite get_set, String.eqb_refl; reflexivity|].
        cbn [field field_names]. split; [|split].
        -- intros k Hk. apply get_set_other. exact Hk.
        -- apply keys_set_present. unfold has_key. rewrite G2. reflexivity.
        -- intros home Hhome. rewrite G2 in Hhome. inversion Hhome; subst home.
           eexists. split; [rewrite get_set, String.eqb_refl; reflexivity|].
           cbn [field]. split; [intros k Hk; apply patch_home_frame; exact Hk|].
           intros [Hn|[fields [Hf [Hg|[c [Hg Hc]]]]]].
           ++ discriminate.
           ++ inversion Hf; subst fields. congruence.
           ++ inversion Hf; subst fields. rewrite G3 in Hg.
              inversion Hg; subst coords. congruence.
  - exact (process_user_no_coordinates db).
  - exact (process_user_with_coordinates db).
  - intros uf G1. unfold process_user. cbn [py_in bind]. unfold has_key.
    rewrite G1. reflexivity.
  - intros uf laf G1 G2. unfold process_user.
    cbn [py_in py_item bind]. unfold has_key, subscript. rewrite G1.
    cbn [bind py_in]. unfold has_key. rewrite G2. reflexivity.
  - intros data out H. unfold process_instagram_data in H.
    destruct (process_records_each db data [] out H) as [data' [-> HF]].
    exact HF.
Qed.

(** The pass on the sample record: the place fields are rewritten, the
    landmark and the county are added, and the rest is as it was. *)
Example process_user_sample :
  process_user sample_db (sample_record sample_home)
  = Ok (sample_record
          [ ("city", JStr "San Francisco"); ("state", JStr "California");
            ("country", JStr "United States"); ("postal_code", JNull);
            ("full_location",
             JStr "Golden Gate Bridge, San Francisco, San Francisco County, California, United States");
            ("count", JNum 4);
            ("coordinates", JObj [("lat", JNum 37.82); ("lng", JNum (-122.48))]);
            ("landmark", JStr "Golden Gate Bridge");
            ("county", JStr "San Francisco") ]).
Proof.
  unfold process_user, sample_record, sample_home, coordinates_of.
  cbn [py_in py_item bind has_key get subscript String.eqb Ascii.eqb Bool.eqb
       is_true as_number].
  rewrite determine_location_sample.
  unfold patch_home.
  cbn [city state country county landmark full_location truthy nonempty
       json_of has_key get set String.eqb Ascii.eqb Bool.eqb].
  reflexivity.
Qed.

(** ** Worked examples *)

(** One post flagged as a paid partnership and nothing else. *)
Example status_paid_partnership :
  final_status [Post (Some "anna") (Some "sunset") None 10 2 (Some true)
                     (Some "anna") []]
  = Some "Active".
Proof. reflexivity. Qed.

(** No flag, no ad hashtag, owner and coauthor equal to the creator. *)
Example status_none :
  final_status [Post (Some "anna") (Some "sunset #beach") None 10 2 (Some false)
                     (Some "anna") [Some "anna"]]
  = None.
Proof. reflexivity. Qed.

(** The tag test is a substring test: "#adventure" holds "#ad". *)
Example status_hashtag_prefix :
  final_status [Post (Some "anna") (Some "my #Adventure") None 0 0 None
                     (Some "anna") []]
  = Some "Active".
Proof. reflexivity. Qed.

(** A stop word and a two-letter token after "@" are not counted, a token
    that is mentioned twice is listed. *)
Example mentions_listed :
  match identify_collaborations 1700000000
          [ Post (Some "anna") (Some "with @the team @ab @nike") (Some 1699000000%Z)
                 10 2 None (Some "anna") [];
            Post (Some "anna") (Some "again @the @nike") (Some 1699100000%Z)
                 20 4 None (Some "anna") [] ] with
  | Ok info => previous_brands_with_source info
  | Raise _ => []
  end
  = [BrandRef "nike" "mention"].
Proof. vm_compute. reflexivity. Qed.

(** With one timestamp the cadence is "N/A" and the record is complete. *)
Example analyze_post_info_one_timestamp (a : analysis) :
  analyze_post_info (Clock 1700000000 0 2023)
    [Post (Some "anna") (Some "sunset") (Some 1699000000%Z) 10 2 None
          (Some "anna") []] a
  = Ok {| collaboration_analysis := collaboration_analysis a;
          niche_analysis := niche_analysis a;
          personal_details := personal_details a;
          posting_frequency :=
            {| overall_frequency := Some "N/A";
               days_since_last_post := Some 11%Z;
               consistent_schedule := None;
               best_days := ["Friday"];
               best_times := ["Early Morning (5am-8am)"] |} |}.
Proof. reflexivity. Qed.

(** An empty post list leaves the analysis as it is. *)
Example analyze_post_info_no_posts (clk : clock) (a : analysis) :
  analyze_post_info clk [] a = Ok a.
Proof. reflexivity. Qed.

(** The age buckets on either side of 30. *)
Example extract_age_buckets :
  extract_age 2026 "27 years old" = (Some 27%Z, Some "25-29")
  /\ extract_age 2026 "age: 31" = (Some 31%Z, Some "25-34")
  /\ extract_age 2026 "I'm 5, age: 20" = (Some 20%Z, Some "18-24")
  /\ extract_age 2026 "born in 2000" = (Some 26%Z, Some "25-29")
  /\ extract_age 2026 "off to college" = (None, Some "18-24").
Proof. vm_compute. repeat split. Qed.

(* ================================================================== *)
(** * Part III: further properties of the code                         *)
(* ================================================================== *)

(** ** Collaboration detector: the tables *)











(** ** Collaboration detector: the two passes *)







Lemma nodup_map_filter {X Y : Type} (f : X -> Y) (g : X -> bool) (l : list X) :
  NoDup (map f l) -> NoDup (map f (filter g l)).
Proof.
  induction l as [|e l IH]; cbn [map filter]; intro H.
  - constructor.
  - inversion H as [|k ks Hnot Hrest]. subst.
    destruct (g e); [|exact (IH Hrest)].
    cbn [map]. constructor; [|exact (IH Hrest)].
    intro Hin. apply Hnot. apply in_map_iff in Hin.
    destruct Hin as [e' [He' Hin']]. apply filter_In in Hin'.
    apply in_map_iff. exists e'. tauto.
Qed.



(** ** Collaboration detector: the order of the entries *)









(** ** Collaboration detector: what the tallies count *)











Lemma in_get {V : Type} (k : string) (v : V) (d : dict V) :
  NoDup (keys d) -> In (k, v) d -> get k d = Some v.
Proof.
  unfold keys. induction d as [|[k0 v0] d IH]; cbn [map get In fst];
    intros Hnd Hin; [destruct Hin|].
  inversion Hnd as [|x xs Hnot Hrest]. subst.
  destruct Hin as [Hin|Hin].
  - inversion Hin. subst. rewrite String.eqb_refl. reflexivity.
  - destruct (String.eqb k k0) eqn:E; [|exact (IH Hrest Hin)].
    apply String.eqb_eq in E. subst k0. exfalso. apply Hnot.
    apply in_map_iff. exists (k, v). auto.
Qed.











(** ** Sorting by descending key *)

Lemma insert_desc_perm {X : Type} (key : X -> Z) (x : X) (l : list X) :
  Permutation (insert_desc key x l) (x :: l).
Proof.
  induction l as [|y l IH]; cbn [insert_desc]; [reflexivity|].
  destruct (key y <=? key x)%Z; [reflexivity|].
  rewrite IH. apply perm_swap.
Qed.

Lemma sort_desc_perm {X : Type} (key : X -> Z) (l : list X) :
  Permutation (sort_desc key l) l.
Proof.
  unfold sort_desc. induction l as [|x l IH]; cbn [fold_right];
    [reflexivity|].
  rewrite insert_desc_perm. constructor. exact IH.
Qed.

(** The head of the sorted list is the first element of maximal key. *)
Lemma sort_desc_first {X : Type} (key : X -> Z) (l : list X) :
  forall x rest,
    sort_desc key l = x :: rest ->
    exists pre post,
      l = pre ++ x :: post
      /\ Forall (fun y => (key y < key x)%Z) pre
      /\ Forall (fun y => (key y <= key x)%Z) post.
Proof.
  induction l as [|a l IH]; intros x rest H; [discriminate|].
  change (sort_desc key (a :: l)) with (insert_desc key a (sort_desc key l)) in H.
  destruct (sort_desc key l) as [|y s] eqn:S.
  - cbn [insert_desc] in H. inversion H. subst.
    pose proof (Permutation_length (sort_desc_perm key l)) as Hlen.
    rewrite S in Hlen. destruct l; [|discriminate].
    exists [], []. repeat split; constructor.
  - destruct (IH y s eq_refl) as [pre [post [Hl [Hpre Hpost]]]].
    cbn [insert_desc] in H. destruct (Z.leb_spec (key y) (key a)).
    + inversion H. subst x rest. exists [], l. split; [reflexivity|].
      split; [constructor|]. rewrite Hl. apply Forall_app. split.
      * eapply Forall_impl; [|exact Hpre]. cbv beta. intros; lia.
      * constructor; [exact H0|].
        eapply Forall_impl; [|exact Hpost]. cbv beta. intros; lia.
    + inversion H. subst x rest. exists (a :: pre), post.
      split; [rewrite Hl; reflexivity|]. split; [|exact Hpost].
      constructor; [exact H0 | exact Hpre].
Qed.

Lemma insert_desc_in {X : Type} (key : X -> Z) (x y : X) (l : list X) :
  In y (insert_desc key x l) -> y = x \/ In y l.
Proof.
  intro H. apply (Permutation_in _ (insert_desc_perm key x l)) in H.
  destruct H; auto.
Qed.

Lemma sort_desc_sorted {X : Type} (key : X -> Z) (l : list X) :
  StronglySorted (fun x y => (key y <= key x)%Z) (sort_desc key l).
Proof.
  unfold sort_desc. induction l as [|a l IH]; cbn [fold_right];
    [constructor|].
  induction IH as [|d l' Hs IH' Hd]; cbn [insert_desc].
  - constructor; constructor.
  - destruct (Z.leb_spec (key d) (key a)).
    + constructor; [constructor; assumption|].
      constructor; [exact H|].
      eapply Forall_impl; [|exact Hd]. cbv beta. intros; lia.
    + constructor; [exact IH'|].
      rewrite Forall_forall in *. intros x Hx.
      destruct (insert_desc_in _ _ _ _ Hx) as [->|Hx']; [lia|].
      exact (Hd x Hx').
Qed.

(** ** Niche classifier: the leading categories *)

Lemma primary_eq (posts : list post) :
  primary (identify_niche posts)
  = match sort_desc snd (niche_scores posts) with
    | e :: _ => if (0 <? snd e)%Z then Some (fst e) else None
    | [] => None
    end.
Proof. reflexivity. Qed.

Lemma secondary_eq (posts : list post) :
  secondary (identify_niche posts)
  = map fst (filter (fun e => (0 <? snd e)%Z)
                    (firstn 3 (tl (sort_desc snd (niche_scores posts))))).
Proof. reflexivity. Qed.

Lemma confidence_scores_eq (posts : list post) :
  confidence_scores (identify_niche posts)
  = let scores := niche_scores posts in
    let top_score :=
      match sort_desc snd scores with e :: _ => snd e | [] => 0%Z end in
    let max_score := if (0 <? top_score)%Z then top_score else 1%Z in
    map (fun cat =>
           (fst cat,
            Z.min 100 (trunc (inject_Z (get0 (fst cat) scores)
                              / inject_Z max_score * 100))))
        niche_categories.
Proof. reflexivity. Qed.

Lemma niche_scores_nodup (posts : list post) :
  NoDup (keys (niche_scores posts)).
Proof. rewrite niche_scores_keys. exact niche_categories_nodup. Qed.

Lemma get0_in (k : string) (v : Z) (d : dict Z) :
  NoDup (keys d) -> In (k, v) d -> get0 k d = v.
Proof.
  intros Hnd Hin. unfold get0. rewrite (in_get _ _ _ Hnd Hin). reflexivity.
Qed.

(** The head of the sorted scores, when it scored. *)
Lemma leading_score (scores : dict Z) (e : string * Z) (rest : dict Z) :
  sort_desc snd scores = e :: rest ->
  first_maximum scores (fst e) (snd e) /\ In e scores.
Proof.
  intro S. destruct (sort_desc_first snd scores e rest S)
    as [pre [post [Hl [Hpre Hpost]]]].
  split.
  - exists pre, post. destruct e. auto.
  - rewrite Hl. apply in_elt.
Qed.

(** X5. The primary niche is the first category, in the order of the
    table, whose score is maximal, provided that score is positive; it is
    null exactly when no category scored. *)
Theorem primary_is_first_maximum (posts : list post) :
  (primary (identify_niche posts) = None
   <-> Forall (fun e => snd e = 0%Z) (niche_scores posts))
  /\ (forall c,
        primary (identify_niche posts) = Some c ->
        exists s, (0 < s)%Z /\ first_maximum (niche_scores posts) c s).
Proof.
  rewrite primary_eq.
  pose proof (niche_scores_nonneg posts) as Hnn.
  unfold nonneg_values in Hnn. rewrite Forall_forall in Hnn.
  set (scores := niche_scores posts) in *.
  destruct (sort_desc snd scores) as [|e rest] eqn:S.
  - pose proof (Permutation_length (sort_desc_perm snd scores)) as Hlen.
    rewrite S in Hlen. destruct scores; [|discriminate].
    split; [split; [constructor | reflexivity] | discriminate].
  - destruct (leading_score scores e rest S) as [[pre [post [Hl [Hpre Hpost]]]] Hin].
    destruct (Z.ltb_spec 0 (snd e)) as [Hpos|Hzero].
    + split.
      * split; [discriminate|]. intro Hall. rewrite Forall_forall in Hall.
        specialize (Hall e Hin). lia.
      * intros c Hc. apply some_eq in Hc. subst c. exists (snd e).
        split; [exact Hpos|]. exists pre, post. auto.
    + split; [|discriminate]. split; [|reflexivity]. intros _.
      apply Forall_forall. intros x Hx. specialize (Hnn x Hx).
      rewrite Forall_forall in Hpre, Hpost.
      rewrite Hl in Hx. apply in_app_or in Hx.
      destruct Hx as [Hx|[Hx|Hx]].
      * specialize (Hpre x Hx). lia.
      * subst x. cbn [snd] in *. lia.
      * specialize (Hpost x Hx). lia.
Qed.

(** ** Niche classifier: secondary niches and confidence scores *)

Lemma trunc_nonneg (q : Q) : 0 <= q -> (0 <= trunc q)%Z.
Proof.
  intro H. unfold trunc. apply Z.quot_pos; [|lia].
  unfold Qle in H. cbn [Qnum Qden] in H. lia.
Qed.

Lemma trunc_zero (q : Q) : q == 0 -> trunc q = 0%Z.
Proof.
  intro H. unfold trunc. unfold Qeq in H. cbn [Qnum Qden] in H.
  assert (E : Qnum q = 0%Z) by lia. rewrite E. apply Z.quot_0_l. lia.
Qed.

Lemma trunc_hundred (s : Z) :
  (0 < s)%Z -> trunc (inject_Z s / inject_Z s * 100) = 100%Z.
Proof.
  intro H. destruct s as [|p|p]; try lia.
  unfold trunc, Qdiv, Qmult, Qinv, inject_Z. cbn [Qnum Qden].
  rewrite Z.mul_1_r, Pos.mul_1_l, Pos.mul_1_r, Z.mul_comm.
  apply Z.quot_mul. lia.
Qed.

Lemma share_nonneg (a m : Z) :
  (0 <= a)%Z -> (0 < m)%Z -> 0 <= inject_Z a / inject_Z m * 100.
Proof.
  intros Ha Hm. apply Qmult_le_0_compat; [|discriminate].
  apply Qle_shift_div_l.
  - change 0 with (inject_Z 0). rewrite <- Zlt_Qlt. exact Hm.
  - rewrite Qmult_0_l. change 0 with (inject_Z 0). rewrite <- Zle_Qle. lia.
Qed.

Lemma share_zero (m : Z) : inject_Z 0 / inject_Z m * 100 == 0.
Proof. unfold Qdiv. change (inject_Z 0) with 0. rewrite !Qmult_0_l. reflexivity. Qed.

Lemma nodup_firstn {X : Type} (n : nat) (l : list X) :
  NoDup l -> NoDup (firstn n l).
Proof.
  intro H. rewrite <- (firstn_skipn n l) in H.
  exact (NoDup_app_remove_r _ _ H).
Qed.

Lemma in_firstn {X : Type} (n : nat) (x : X) (l : list X) :
  In x (firstn n l) -> In x l.
Proof.
  intro H. rewrite <- (firstn_skipn n l). apply in_or_app. left. exact H.
Qed.

(** X6. The secondary niches are at most three distinct categories that
    scored; none is the primary niche, which then exists and scores at
    least as much. The confidence scores list the twenty categories, each
    with a value from 0 to 100: 100 for the primary niche, 0 for a category
    that did not score. *)
Theorem secondary_and_confidence (posts : list post) :
  let r := identify_niche posts in
  let scores := niche_scores posts in
  (List.length (secondary r) <= 3)%nat
  /\ NoDup (secondary r)
  /\ (forall c, In c (secondary r) ->
        (0 < get0 c scores)%Z
        /\ exists p, primary r = Some p /\ p <> c
                     /\ (get0 c scores <= get0 p scores)%Z)
  /\ keys (confidence_scores r) = keys niche_categories
  /\ (forall c v, In (c, v) (confidence_scores r) ->
        (0 <= v <= 100)%Z /\ (get0 c scores = 0%Z -> v = 0%Z))
  /\ (forall p, primary r = Some p -> In (p, 100%Z) (confidence_scores r)).
Proof.
  intros r scores. subst r.
  rewrite primary_eq, secondary_eq, confidence_scores_eq. cbv zeta.
  fold scores.
  pose proof (niche_scores_nonneg posts) as Hnn.
  unfold nonneg_values in Hnn. rewrite Forall_forall in Hnn. fold scores in Hnn.
  pose proof (niche_scores_nodup posts) as Hnd. fold scores in Hnd.
  pose proof (niche_scores_keys posts) as Hkeys. fold scores in Hkeys.
  pose proof (sort_desc_perm snd scores) as Hperm.
  pose proof (sort_desc_sorted snd scores) as Hsorted.
  assert (Hsnd : NoDup (map fst (sort_desc snd scores))).
  { apply (Permutation_NoDup (l := map fst scores));
      [apply Permutation_map; symmetry; exact Hperm | exact Hnd]. }
  clearbody scores.
  set (sorted := sort_desc snd scores) in *.
  split; [|split; [|split; [|split; [|split]]]].
  - rewrite length_map.
    eapply Nat.le_trans; [apply filter_length_bound|]. apply firstn_le_length.
  - apply nodup_map_filter. rewrite <- firstn_map. apply nodup_firstn.
    destruct sorted as [|h t]; [constructor|]. cbn [tl map] in *.
    inversion Hsnd. assumption.
  - intros c Hc. apply in_map_iff in Hc. destruct Hc as [e [Hfst Hin]].
    apply filter_In in Hin. destruct Hin as [Hin Hpos]. apply Z.ltb_lt in Hpos.
    apply in_firstn in Hin.
    destruct sorted as [|h t]; [destruct Hin|]. cbn [tl] in Hin.
    inversion Hsorted as [|h' t' _ Hh]. subst h' t'.
    rewrite Forall_forall in Hh. specialize (Hh e Hin).
    assert (He : In e scores).
    { apply (Permutation_in _ Hperm). right. exact Hin. }
    assert (Hhs : In h scores).
    { apply (Permutation_in _ Hperm). left. reflexivity. }
    destruct e as [ce se]. destruct h as [ch sh]. cbn [fst snd] in *. subst ce.
    rewrite (get0_in c se scores Hnd He).
    split; [exact Hpos|]. exists ch.
    rewrite (get0_in ch sh scores Hnd Hhs).
    destruct (Z.ltb_spec 0 sh); [|lia].
    split; [reflexivity|]. split; [|exact Hh].
    intro E. subst ch. cbn [map fst] in Hsnd. inversion Hsnd as [|x xs Hnot _].
    apply Hnot. apply in_map_iff. exists (c, se). auto.
  - unfold keys. rewrite map_map. apply map_ext. intro cat. reflexivity.
  - intros c v Hin. apply in_map_iff in Hin. destruct Hin as [cat [E _]].
    inversion E as [[Ec Ev]]. clear E.
    set (m := if (0 <? match sorted with e :: _ => snd e | [] => 0 end)%Z
              then match sorted with e :: _ => snd e | [] => 0%Z end
              else 1%Z).
    assert (Hm : (0 < m)%Z).
    { unfold m. destruct (Z.ltb_spec 0 match sorted with e :: _ => snd e
                                          | [] => 0 end)%Z; lia. }
    assert (Hg : (0 <= get0 (fst cat) scores)%Z).
    { apply get0_nonneg. apply Forall_forall. exact Hnn. }
    split.
    + split; [|apply Z.le_min_l].
      apply Z.min_glb; [lia|]. apply trunc_nonneg, share_nonneg; assumption.
    + subst c. intro H0. rewrite H0, (trunc_zero _ (share_zero m)). reflexivity.
  - intros p Hp. destruct sorted as [|h t] eqn:S; [discriminate|].
    destruct (Z.ltb_spec 0 (snd h)) as [Hpos|]; [|discriminate].
    apply some_eq in Hp. subst p.
    assert (Hhs : In h scores).
    { apply (Permutation_in _ Hperm). left. reflexivity. }
    assert (Hcat : In (fst h) (keys niche_categories)).
    { rewrite <- Hkeys. unfold keys. apply in_map. exact Hhs. }
    unfold keys in Hcat. apply in_map_iff in Hcat.
    destruct Hcat as [cat [Hc Hcat]].
    apply in_map_iff. exists cat. split; [|exact Hcat].
    rewrite Hc. destruct h as [ch sh]. cbn [fst snd] in *.
    rewrite (get0_in ch sh scores Hnd Hhs), (trunc_hundred sh Hpos).
    reflexivity.
Qed.

(** ** Niche classifier: the share of the primary niche *)

Lemma round_half_even_floor (n d : Z) : (n / d <= round_half_even n d)%Z.
Proof.
  unfold round_half_even.
  destruct (2 * (n mod d) <? d)%Z; [lia|].
  destruct (d <? 2 * (n mod d))%Z; [lia|].
  destruct (Z.even (n / d)); lia.
Qed.

Lemma round0_lower (k : Z) (y : Q) : inject_Z k <= y -> (k <= round0 y)%Z.
Proof.
  intro H. unfold round0.
  eapply Z.le_trans; [|apply round_half_even_floor].
  apply Z.div_le_lower_bound; [lia|].
  unfold Qle, inject_Z in H. cbn [Qnum Qden] in H. lia.
Qed.

Lemma round1_lower (k : Z) (x : Q) :
  inject_Z k <= x * 10 -> k # 10 <= round1 x.
Proof.
  intro H. unfold round1. pose proof (round0_lower k _ H) as Hr.
  unfold Qle. cbn [Qnum Qden]. lia.
Qed.

Lemma sumZ_le_max (s : Z) (l : list Z) :
  Forall (fun v => (v <= s)%Z) l ->
  (sumZ l <= Z.of_nat (List.length l) * s)%Z.
Proof.
  induction 1 as [|v l Hv _ IH]; [cbn; lia|].
  rewrite sumZ_cons. cbn [List.length]. lia.
Qed.

(** X7. Whenever a primary niche is reported, it has an entry in the
    distribution, with a share of at least 5 per cent: it holds the highest
    of twenty scores, and so is never filtered out as negligible. *)
Theorem primary_in_distribution (posts : list post) (p : string) :
  primary (identify_niche posts) = Some p ->
  exists share,
    In (p, share) (distribution (identify_niche posts)) /\ 5 <= share.
Proof.
  rewrite primary_eq, distribution_filter.
  pose proof (niche_scores_nonneg posts) as Hnn.
  pose proof (niche_scores_length posts) as Hlen.
  set (scores := niche_scores posts) in *. clearbody scores.
  destruct (sort_desc snd scores) as [|e rest] eqn:S; [discriminate|].
  destruct (Z.ltb_spec 0 (snd e)) as [Hpos|]; [|discriminate].
  intro Hp. apply some_eq in Hp. subst p.
  destruct (leading_score scores e rest S)
    as [[pre [post [Hl [Hpre Hpost]]]] Hin].
  assert (Hmax : Forall (fun v => (v <= snd e)%Z) (values scores)).
  { unfold values. rewrite Hl, map_app. cbn [map snd]. apply Forall_app. split.
    - apply Forall_map. eapply Forall_impl; [|exact Hpre]. cbv beta. intros; lia.
    - constructor; [lia|]. apply Forall_map. exact Hpost. }
  pose proof (sumZ_le_max _ _ Hmax) as Hsum.
  unfold values in Hsum at 2. rewrite length_map, Hlen in Hsum.
  assert (Hsum_pos : (0 < sumZ (values scores))%Z).
  { apply sum_positive; [exact Hnn|]. exists e. auto. }
  set (share := round1 (inject_Z (snd e) / inject_Z (total_score scores) * 100)).
  assert (Hshare : 5 <= share).
  { unfold share, total_score.
    destruct (Z.eqb_spec (sumZ (values scores)) 0) as [E|_]; [lia|].
    apply (Qle_trans _ (50 # 10)); [unfold Qle; cbn; lia|].
    apply round1_lower.
    set (T := sumZ (values scores)) in *.
    assert (HT : 0 < inject_Z T).
    { change 0 with (inject_Z 0). rewrite <- Zlt_Qlt. exact Hsum_pos. }
    assert (E : inject_Z (snd e) / inject_Z T * 100 * 10
                == inject_Z (1000 * snd e) / inject_Z T).
    { rewrite inject_Z_mult. field. intro H0. rewrite H0 in HT.
      exact (Qlt_irrefl 0 HT). }
    rewrite E. apply Qle_shift_div_l; [exact HT|].
    rewrite <- inject_Z_mult, <- Zle_Qle. cbn [Z.of_nat] in Hsum. lia. }
  exists share. split; [|exact Hshare].
  apply filter_In. split.
  - unfold percentages. apply in_map_iff. exists e. split; [reflexivity|].
    apply filter_In. split; [exact Hin | apply Z.ltb_lt; exact Hpos].
  - cbn [snd]. apply Qle_bool_iff. eapply Qle_trans; [|exact Hshare].
    discriminate.
Qed.

Lemma primary_in_distribution_witness :
  let posts := [Post None (Some "#fashion #makeup") None 0 0 None None []] in
  primary (identify_niche posts) = Some "Fashion & Style"
  /\ exists share,
       In ("Fashion & Style", share) (distribution (identify_niche posts))
       /\ 5 <= share.
Proof.
  intro posts.
  assert (H : primary (identify_niche posts) = Some "Fashion & Style")
    by (vm_compute; reflexivity).
  split; [exact H|].
  exact (primary_in_distribution posts "Fashion & Style" H).
Defined.

(** ** Great-circle distance *)

Lemma asin_nonneg (y : R) : (0 <= y)%R -> (0 <= asin y)%R.
Proof.
  intro Hy. unfold asin. pose proof PI_RGT_0 as Hpi.
  destruct (Rle_dec y (-1)) as [H|_]; [lraR|].
  destruct (Rle_dec 1 y) as [_|H1]; [lraR|].
  assert (Hs : (0 < sqrt (1 - y²))%R).
  { apply sqrt_lt_R0. unfold Rsqr.
    replace (1 - y * y)%R with ((1 - y) * (1 + y))%R by ring.
    apply Rmult_lt_0_compat; lraR. }
  assert (Ht : (0 <= y / sqrt (1 - y²))%R).
  { unfold Rdiv. apply Rmult_le_pos; [exact Hy|].
    left. apply Rinv_0_lt_compat. exact Hs. }
  destruct Ht as [Ht|Ht].
  - pose proof (atan_increasing _ _ Ht) as H. rewrite atan_0 in H. lraR.
  - rewrite <- Ht, atan_0. lraR.
Qed.

Lemma sin_half_swap (x y : R) :
  (sin ((y - x) / 2) ^ 2 = sin ((x - y) / 2) ^ 2)%R.
Proof.
  replace ((y - x) / 2)%R with (- ((x - y) / 2))%R by field.
  rewrite sin_neg. ring.
Qed.

Lemma sin_sqr_bound (x : R) : (0 <= sin x ^ 2 <= 1)%R.
Proof.
  pose proof (SIN_bound x) as [H1 H2]. split; [apply pow2_ge_0|].
  replace 1%R with (1 + 0)%R by ring.
  replace (sin x ^ 2)%R with (1 - (1 - sin x) * (1 + sin x))%R by ring.
  assert (0 <= (1 - sin x) * (1 + sin x))%R by (apply Rmult_le_pos; lraR).
  lraR.
Qed.

Lemma sin_sqr_half (x : R) : (sin (x / 2) ^ 2 = (1 - cos x) / 2)%R.
Proof.
  replace (cos x) with (cos (2 * (x / 2))) by (f_equal; field).
  rewrite cos_2a_sin. field.
Qed.

(** The quantity under the square root is a mean of two numbers of
    [0, 1], weighted by the squared sine of half the difference of the
    longitudes. *)
Lemma haversine_a_bounds (lat1 lon1 lat2 lon2 : R) :
  (0 <= haversine_a lat1 lon1 lat2 lon2 <= 1)%R.
Proof.
  unfold haversine_a.
  set (p1 := radians lat1). set (p2 := radians lat2).
  set (T := (sin ((radians lon2 - radians lon1) / 2) ^ 2)%R).
  pose proof (sin_sqr_bound ((radians lon2 - radians lon1) / 2)) as [T0 T1].
  fold T in T0, T1.
  rewrite sin_sqr_half, cos_minus.
  pose proof (COS_bound (p2 - p1)) as [D1 D2]. rewrite cos_minus in D1, D2.
  pose proof (COS_bound (p2 + p1)) as [S1 S2]. rewrite cos_plus in S1, S2.
  set (c1 := cos p1) in *. set (c2 := cos p2) in *.
  set (s1 := sin p1) in *. set (s2 := sin p2) in *.
  replace ((1 - (c2 * c1 + s2 * s1)) / 2 + c1 * c2 * T)%R
    with ((1 - T) * ((1 - (c2 * c1 + s2 * s1)) / 2)
          + T * ((1 + (c2 * c1 - s2 * s1)) / 2))%R by field.
  set (p := ((1 - (c2 * c1 + s2 * s1)) / 2)%R).
  set (q := ((1 + (c2 * c1 - s2 * s1)) / 2)%R).
  assert (Hp : (0 <= p <= 1)%R) by (unfold p; lraR).
  assert (Hq : (0 <= q <= 1)%R) by (unfold q; lraR).
  assert (A1 : (0 <= (1 - T) * p)%R) by (apply Rmult_le_pos; lraR).
  assert (A2 : (0 <= T * q)%R) by (apply Rmult_le_pos; lraR).
  assert (A3 : (0 <= (1 - T) * (1 - p))%R) by (apply Rmult_le_pos; lraR).
  assert (A4 : (0 <= T * (1 - q))%R) by (apply Rmult_le_pos; lraR).
  split; lraR.
Qed.

(** X8. The distance of [haversine_distance] is symmetric, is zero from
    a point to itself, and lies between 0 and half the circumference of a
    sphere of radius 6371 km, whatever the four numbers; the quantity whose
    square root and arcsine are taken lies between 0 and 1, inside the
    domain of both functions. *)
Theorem haversine_distance_properties (lat1 lon1 lat2 lon2 : R) :
  haversine_distance lat1 lon1 lat2 lon2
  = haversine_distance lat2 lon2 lat1 lon1
  /\ haversine_distance lat1 lon1 lat1 lon1 = 0%R
  /\ (0 <= haversine_distance lat1 lon1 lat2 lon2 <= 6371 * PI)%R
  /\ haversine_distance lat1 lon1 lat2 lon2
     = (2 * asin (sqrt (haversine_a lat1 lon1 lat2 lon2)) * 6371)%R
  /\ (0 <= haversine_a lat1 lon1 lat2 lon2 <= 1)%R
  /\ (0 <= sqrt (haversine_a lat1 lon1 lat2 lon2) <= 1)%R.
Proof.
  split; [|split; [|split; [|split; [|split]]]].
  - unfold haversine_distance. cbv zeta.
    rewrite (sin_half_swap (radians lat1) (radians lat2)).
    rewrite (sin_half_swap (radians lon1) (radians lon2)).
    rewrite (Rmult_comm (cos (radians lat1)) (cos (radians lat2))).
    reflexivity.
  - apply haversine_same_point.
  - unfold haversine_distance. cbv zeta.
    fold (haversine_a lat1 lon1 lat2 lon2).
    set (a := haversine_a lat1 lon1 lat2 lon2).
    pose proof (asin_nonneg (sqrt a) (sqrt_pos a)) as H0.
    pose proof (asin_bound (sqrt a)) as [_ H1].
    split; lraR.
  - reflexivity.
  - apply haversine_a_bounds.
  - pose proof (haversine_a_bounds lat1 lon1 lat2 lon2) as [H0 H1].
    split; [apply sqrt_pos|].
    rewrite <- sqrt_1. apply sqrt_le_1; lraR.
Qed.

(** ** The geo-resolution pass: running it again, and records it cannot read *)

Lemma set_same {V : Type} (k : string) (v : V) (d : dict V) :
  get k d = Some v -> set k v d = d.
Proof.
  induction d as [|[k0 v0] d IH]; cbn [get set]; [discriminate|].
  destruct (String.eqb k k0) eqn:E.
  - apply String.eqb_eq in E. subst k0. intro H. apply some_eq in H.
    subst v0. reflexivity.
  - intro H. rewrite (IH H). reflexivity.
Qed.

Lemma set_set {V : Type} (k : string) (v w : V) (d : dict V) :
  set k v (set k w d) = set k v d.
Proof.
  induction d as [|[k0 v0] d IH]; cbn [set].
  - rewrite String.eqb_refl. reflexivity.
  - destruct (String.eqb k k0) eqn:E; cbn [set]; rewrite E; [reflexivity|].
    rewrite IH. reflexivity.
Qed.

Lemma set_fresh {V : Type} (k : string) (v w : V) (d : dict V) :
  set k v (if has_key k d then d else set k w d) = set k v d.
Proof.
  destruct (has_key k d); [reflexivity | apply set_set].
Qed.

(** The keys that [patch_home] writes hold what it wrote. *)
Lemma patch_home_written (loc : location) (home : list (string * json)) :
  let home' := patch_home loc home in
  get "city" home' = Some (json_of (city loc))
  /\ get "state" home' = Some (json_of (state loc))
  /\ get "country" home' = Some (json_of (country loc))
  /\ (truthy (landmark loc) = true ->
      get "landmark" home' = Some (json_of (landmark loc)))
  /\ (truthy (county loc) = true ->
      get "county" home' = Some (json_of (county loc)))
  /\ (truthy (full_location loc) = true ->
      get "full_location" home' = Some (json_of (full_location loc))).
Proof.
  cbv zeta. unfold patch_home. rewrite !set_fresh.
  destruct (truthy (landmark loc)), (truthy (county loc)),
    (truthy (full_location loc));
    repeat split; intros; try discriminate;
    repeat (rewrite get_set; cbn [String.eqb Ascii.eqb Bool.eqb]);
    reflexivity.
Qed.

Lemma patch_home_idempotent (loc : location) (home : list (string * json)) :
  patch_home loc (patch_home loc home) = patch_home loc home.
Proof.
  destruct (patch_home_written loc home) as [H1 [H2 [H3 [H4 [H5 H6]]]]].
  set (home' := patch_home loc home) in *.
  unfold patch_home at 1. rewrite !set_fresh.
  rewrite (set_same _ _ _ H1), (set_same _ _ _ H2), (set_same _ _ _ H3).
  destruct (truthy (landmark loc)); [rewrite (set_same _ _ _ (H4 eq_refl))|];
    (destruct (truthy (county loc)); [rewrite (set_same _ _ _ (H5 eq_refl))|]);
    (destruct (truthy (full_location loc));
     [rewrite (set_same _ _ _ (H6 eq_refl))|]);
    reflexivity.
Qed.

(** The converse of [process_user_cases]. *)
Lemma process_user_resolved (db : gps_db)
  (user_fields la_fields home_fields : list (string * json)) (coords : json)
  (lat lng : R) :
  get "location_analysis" user_fields = Some (JObj la_fields) ->
  get "home_location" la_fields = Some (JObj home_fields) ->
  get "coordinates" home_fields = Some coords ->
  is_true coords = true ->
  (lat_v <- py_item coords "lat" ;; as_number lat_v) = Ok lat ->
  (lng_v <- py_item coords "lng" ;; as_number lng_v) = Ok lng ->
  process_user db (JObj user_fields)
  = Ok (JObj (set "location_analysis"
                (JObj (set "home_location"
                         (JObj (patch_home (determine_location lat lng db)
                                           home_fields))
                         la_fields))
                user_fields)).
Proof.
  intros G1 G2 G3 Ht Hlat Hlng. unfold process_user, coordinates_of.
  cbn [py_in py_item bind]. unfold has_key, subscript. rewrite G1.
  cbn [bind py_in py_item]. unfold has_key, subscript. rewrite G2.
  cbn [bind py_in py_item is_true].
  destruct home_fields as [|e0 home_rest]; [discriminate|].
  unfold has_key, subscript. rewrite G3. cbn [bind]. rewrite Ht.
  destruct (py_item coords "lat") as [lat_v|]; [|discriminate].
  destruct (py_item coords "lng") as [lng_v|]; [|discriminate].
  cbn [bind] in *. rewrite Hlat, Hlng. reflexivity.
Qed.

Lemma process_user_idempotent (db : gps_db) (user user' : json) :
  process_user db user = Ok user' -> process_user db user' = Ok user'.
Proof.
  intro H. destruct (process_user_cases db user user' H)
    as [->|[uf [lf [hf [coords [lat [lng
          [-> [G1 [G2 [G3 [Ht [Hlat [Hlng ->]]]]]]]]]]]]]]; [exact H|].
  set (loc := determine_location lat lng db).
  rewrite (process_user_resolved db _
             (set "home_location" (JObj (patch_home loc hf)) lf)
             (patch_home loc hf) coords lat lng).
  - fold loc. rewrite patch_home_idempotent, !set_set. reflexivity.
  - rewrite get_set, String.eqb_refl. reflexivity.
  - rewrite get_set, String.eqb_refl. reflexivity.
  - rewrite patch_home_frame; [exact G3|].
    cbn [place_keys In]. intuition discriminate.
  - exact Ht.
  - exact Hlat.
  - exact Hlng.
Qed.

Lemma process_records_again (db : gps_db) (l done : list json) :
  Forall (fun user => process_user db user = Ok user) l ->
  foldM (fun done user => user' <- process_user db user ;; Ok (done ++ [user']))
        l done = Ok (done ++ l).
Proof.
  intro H. revert done. induction H as [|user l Hu _ IH]; intro done;
    cbn [foldM].
  - rewrite app_nil_r. reflexivity.
  - rewrite Hu. cbn [bind]. rewrite IH, <- app_assoc. reflexivity.
Qed.

(** X9. The pass is idempotent: run on the collection that it wrote, it
    writes the same collection again. That collection has one record for
    each record read. *)
Theorem geo_pass_idempotent (db : gps_db) (data out : list json) :
  process_instagram_data db data = Ok out ->
  process_instagram_data db out = Ok out
  /\ List.length out = List.length data.
Proof.
  unfold process_instagram_data. intro H.
  destruct (process_records_each db data [] out H) as [data' [-> HF]].
  cbn [app]. split.
  - apply (process_records_again db data' []).
    clear H. induction HF as [|u u' l l' Hu _ IH]; [constructor|].
    constructor; [|exact IH].
    exact (process_user_idempotent db u u' Hu).
  - symmetry. exact (Forall2_length HF).
Qed.

Lemma geo_pass_idempotent_witness :
  exists out,
    process_instagram_data sample_db [sample_record sample_home] = Ok out
    /\ process_instagram_data sample_db out = Ok out
    /\ List.length out = 1%nat.
Proof.
  eexists.
  assert (H : process_instagram_data sample_db [sample_record sample_home]
              = Ok [sample_record
                      [ ("city", JStr "San Francisco");
                        ("state", JStr "California");
                        ("country", JStr "United States");
                        ("postal_code", JNull);
                        ("full_location",
                         JStr "Golden Gate Bridge, San Francisco, San Francisco County, California, United States");
                        ("count", JNum 4);
                        ("coordinates",
                         JObj [("lat", JNum 37.82); ("lng", JNum (-122.48))]);
                        ("landmark", JStr "Golden Gate Bridge");
                        ("county", JStr "San Francisco") ]]).
  { unfold process_instagram_data. cbn [foldM].
    rewrite process_user_sample. reflexivity. }
  split; [exact H|].
  exact (geo_pass_idempotent sample_db _ _ H).
Defined.

Lemma process_records_raise (db : gps_db) (data done : list json) (u : json)
  (e : exn) :
  In u data -> process_user db u = Raise e ->
  exists e',
    foldM (fun done user => user' <- process_user db user ;; Ok (done ++ [user']))
          data done = Raise e'.
Proof.
  revert done. induction data as [|user data IH]; intros done Hin Hu;
    [destruct Hin|].
  cbn [foldM]. destruct Hin as [->|Hin].
  - rewrite Hu. exists e. reflexivity.
  - destruct (process_user db user) as [user'|e0]; cbn [bind].
    + exact (IH _ Hin Hu).
    + exists e0. reflexivity.
Qed.

(** X10. A record whose [home_location] has coordinates, an object that is
    not empty, without the key 'lat' or without the key 'lng', makes the
    pass raise [KeyError]; and a record that raises makes
    [process_instagram_data] raise: no collection is written, whatever the
    other records are. *)
Theorem geo_pass_missing_coordinate (db : gps_db) (data : list json)
  (user_fields la_fields home_fields coords : list (string * json)) :
  In (JObj user_fields) data ->
  get "location_analysis" user_fields = Some (JObj la_fields) ->
  get "home_location" la_fields = Some (JObj home_fields) ->
  get "coordinates" home_fields = Some (JObj coords) ->
  coords <> [] ->
  get "lat" coords = None \/ get "lng" coords = None ->
  process_user db (JObj user_fields) = Raise KeyError
  /\ exists e, process_instagram_data db data = Raise e.
Proof.
  intros Hin G1 G2 G3 Hne Hmiss.
  assert (Hu : process_user db (JObj user_fields) = Raise KeyError).
  { unfold process_user, coordinates_of.
    cbn [py_in py_item bind]. unfold has_key, subscript. rewrite G1.
    cbn [bind py_in py_item]. unfold has_key, subscript. rewrite G2.
    cbn [bind py_in py_item is_true].
    destruct home_fields as [|e0 home_rest]; [discriminate|].
    unfold has_key, subscript. rewrite G3. cbn [bind is_true].
    destruct coords as [|c0 coords_rest]; [congruence|].
    cbn [py_item bind]. unfold subscript.
    destruct (get "lat" (c0 :: coords_rest)) as [lat_v|]; [|reflexivity].
    destruct Hmiss as [Hm|Hm]; [discriminate|]. rewrite Hm. reflexivity. }
  split; [exact Hu|].
  exact (process_records_raise db data [] _ _ Hin Hu).
Qed.

Lemma geo_pass_missing_coordinate_witness :
  process_user sample_db broken_record = Raise KeyError
  /\ exists e,
       process_instagram_data sample_db
         [sample_record sample_home; broken_record] = Raise e.
Proof.
  apply (geo_pass_missing_coordinate sample_db
           [sample_record sample_home; broken_record]
           [ ("username", JStr "bob");
             ("location_analysis",
              JObj [("home_location",
                     JObj [("city", JStr "Lima");
                           ("coordinates", JObj [("lng", JNum 1)])])]) ]
           [("home_location",
             JObj [("city", JStr "Lima");
                   ("coordinates", JObj [("lng", JNum 1)])])]
           [("city", JStr "Lima"); ("coordinates", JObj [("lng", JNum 1)])]
           [("lng", JNum 1)]).
  - right. left. reflexivity.
  - reflexivity.
  - reflexivity.
  - reflexivity.
  - discriminate.
  - left. reflexivity.
Defined.

(** ** Posting cadence *)











(** ** Posting cadence: the average gap *)









(** ** Demographic classifier: what [extract_age] can return *)

Lemma birth_year_age_range (cy : Z) (patterns : list regex) (text : string)
  (a : Z) (g : string) :
  birth_year_age cy patterns text = Some (a, g) ->
  (13 <= a <= cy - 1920)%Z /\ g = age_group_of a.
Proof.
  induction patterns as [|p ps IH]; cbn [birth_year_age]; [discriminate|].
  destruct (findall p text) as [|m ms]; [exact IH|].
  destruct (int_of m) as [v|]; [|exact IH].
  destruct ((1920 <=? v)%Z && (v <=? cy - 13)%Z) eqn:E; [|exact IH].
  intro H. inversion H; subst.
  apply andb_true_iff in E. destruct E as [E1 E2].
  apply Z.leb_le in E1, E2. split; [lia | reflexivity].
Qed.

Lemma life_stage_cases (lines : list string) (g : string) :
  life_stage lines = Some g -> g = "18-24" \/ g = "25-29".
Proof.
  induction lines as [|line rest IH]; cbn [life_stage]; [discriminate|].
  destruct (contains "college" (lower line) || contains "university" (lower line));
    [intro H; inversion H; auto|].
  destruct (contains "career" (lower line) || contains "job" (lower line));
    [intro H; inversion H; auto|].
  exact IH.
Qed.

Lemma age_group_of_label (a : Z) :
  In (age_group_of a) ["Under 18"; "18-24"; "25-29"; "25-34"; "35-44"; "45+"].
Proof.
  unfold age_group_of.
  repeat match goal with
         | |- context [(?x <? ?y)%Z] => destruct (x <? y)%Z
         end; cbn [In]; auto 10.
Qed.

(** X13. [extract_age] returns two nulls for the empty text and for no
    other: a text that is not empty always gets one of the six age groups.
    A returned age is at least 13, and at most 100 or, when it comes from
    a birth year, the years since 1920; the group is then the bucket of that
    age. Without an age, the group is '18-24' or '25-29'. *)
Theorem extract_age_outcome (current_year : Z) (text : string) :
  (text = "" -> extract_age current_year text = (None, None))
  /\ (text <> "" ->
      exists g,
        snd (extract_age current_year text) = Some g
        /\ In g ["Under 18"; "18-24"; "25-29"; "25-34"; "35-44"; "45+"]
        /\ match fst (extract_age current_year text) with
           | Some a =>
               (13 <= a)%Z
               /\ (a <= 100 \/ a <= current_year - 1920)%Z
               /\ g = age_group_of a
           | None => g = "18-24" \/ g = "25-29"
           end).
Proof.
  split; [intros ->; reflexivity|].
  intro Hne. unfold extract_age. rewrite (nonempty_true text Hne). cbn [negb].
  destruct (direct_age age_patterns text) as [[a g]|] eqn:D.
  - destruct (direct_age_sound _ _ _ _ D) as [Ha ->].
    exists (age_group_of a). cbn [fst snd].
    split; [reflexivity|]. split; [apply age_group_of_label|].
    repeat split; try lia.
  - destruct (birth_year_age current_year year_patterns text) as [[a g]|] eqn:B.
    + destruct (birth_year_age_range _ _ _ _ _ B) as [Ha ->].
      exists (age_group_of a). cbn [fst snd].
      split; [reflexivity|]. split; [apply age_group_of_label|].
      repeat split; try lia.
    + destruct (life_stage (split newline text)) as [g|] eqn:L.
      * exists g. cbn [fst snd]. split; [reflexivity|].
        destruct (life_stage_cases _ _ L) as [->| ->]; cbn [In]; auto 10.
      * exists "25-29". cbn [fst snd]. split; [reflexivity|]. cbn [In]. auto 10.
Qed.

(** ** Geo-resolution: the shape of the result *)

Lemma find_country_none (lat lng : R) (db : gps_db) :
  find_country lat lng db = None
  <-> Forall (fun entry =>
                is_within_bounds lat lng (country_bounds (snd entry)) = false)
             db.
Proof.
  induction db as [|[code data] db IH]; cbn [find_country].
  - split; [constructor | reflexivity].
  - destruct (is_within_bounds lat lng (country_bounds data)) eqn:E.
    + split; [discriminate|]. intro H. inversion H. cbn [snd] in *. congruence.
    + rewrite IH. split; [intro H; constructor; assumption|].
      intro H. inversion H. assumption.
Qed.

(** X14. The result of [determine_location], for any database: it is
    always marked approximate and never has a postal code; it is the
    all-null record exactly when no country box holds the point; a state is
    never set without a country, nor a city, county or landmark without a
    state; and a result with a country has a full location. *)
Theorem determine_location_shape (lat lng : R) (db : gps_db) :
  let r := determine_location lat lng db in
  approximate r = true
  /\ postal_code r = None
  /\ (country r = None
      <-> Forall (fun entry =>
                    is_within_bounds lat lng (country_bounds (snd entry)) = false)
                 db)
  /\ (country r = None -> r = no_location)
  /\ (state r = None ->
      city r = None /\ county r = None /\ landmark r = None)
  /\ (country r <> None -> full_location r <> None).
Proof.
  cbv zeta. rewrite <- find_country_none. unfold determine_location.
  destruct (find_country lat lng db) as [[code cdata]|].
  - destruct (find_subdivision lat lng cdata) as [[[sub_code sub] t]|].
    + destruct (find_landmark lat lng sub 5) as [[[lname linfo] ld]|];
        [destruct (nonempty lname)|];
        repeat match goal with
               | |- context [if ?b then _ else _] => destruct b
               | |- context [match find_city ?a ?b ?c ?d with _ => _ end] =>
                   destruct (find_city a b c d) as [[? ?]|]
               | |- context [match find_county ?a ?b ?c with _ => _ end] =>
                   destruct (find_county a b c)
               end;
        cbn [approximate postal_code country state city county landmark
             full_location];
        repeat split; try discriminate; try tauto;
        try (intros _;
             match goal with
             | |- match ?l with [] => _ | _ :: _ => _ end <> None =>
                 destruct l; discriminate
             end).
    + cbn [approximate postal_code country state city county landmark
           full_location location_parts app].
      repeat split; try discriminate; try tauto.
      intros _.
      match goal with
      | |- match ?l with [] => _ | _ :: _ => _ end <> None =>
          destruct l; discriminate
      end.
  - cbn. repeat split; try tauto; try discriminate; intro H; congruence.
Qed.

(** ** US detection from text: whole words *)











(** ** Locations of the posts *)
















Lemma first_tagged_some (k : string) (p : located_post) (loc : location_tag) :
  first_tagged k [p] = Some loc ->
  counted_name p = Some k /\ its_location p = Some loc.
Proof.
  cbn [first_tagged]. destruct (counted_name p) as [name|] eqn:E;
    [|discriminate].
  destruct (String.eqb name k) eqn:Ek; [|discriminate].
  apply String.eqb_eq in Ek. subst. auto.
Qed.








(** ** Parsing a location name *)

Lemma append_nil_r (s : string) : (s ++ "")%string = s.
Proof. induction s as [|c s IH]; [reflexivity | cbn [append]; rewrite IH; reflexivity]. Qed.

Lemma append_assoc (a b c : string) :
  ((a ++ b) ++ c)%string = (a ++ (b ++ c))%string.
Proof.
  induction a as [|x a IH]; [reflexivity | cbn [append]; rewrite IH; reflexivity].
Qed.

Lemma length_append (a b : string) :
  String.length (a ++ b) = (String.length a + String.length b)%nat.
Proof.
  induction a as [|x a IH]; [reflexivity | cbn [append String.length]; rewrite IH; reflexivity].
Qed.

Lemma rev_string_acc (acc s : string) :
  rev_string acc s = (rev_string "" s ++ acc)%string.
Proof.
  revert acc. induction s as [|c s IH]; intro acc; [reflexivity|].
  cbn [rev_string]. rewrite (IH (String c acc)), (IH (String c "")).
  rewrite append_assoc. reflexivity.
Qed.

(** The piece being read, once the characters of [a] are read. *)
Lemma rev_string_read (cur a : string) :
  rev_string "" (rev_string cur a) = (rev_string "" cur ++ a)%string.
Proof.
  revert cur. induction a as [|c a IH]; intro cur.
  - cbn [rev_string]. rewrite append_nil_r. reflexivity.
  - cbn [rev_string]. rewrite IH. cbn [rev_string].
    rewrite (rev_string_acc (String c "") cur), append_assoc.
    reflexivity.
Qed.

(** [split_aux] reads on over a text in which the separator does not
    start. *)
Lemma split_aux_skip (sep a rest : string) :
  (forall a1 a2, a = (a1 ++ a2)%string -> a2 <> "" ->
                 String.prefix sep (a2 ++ rest) = false) ->
  forall fuel cur,
    (String.length a <= fuel)%nat ->
    split_aux fuel sep cur (a ++ rest)
    = split_aux (fuel - String.length a) sep (rev_string cur a) rest.
Proof.
  induction a as [|c a IH]; intros Hfree fuel cur Hfuel.
  - cbn [append String.length rev_string]. rewrite Nat.sub_0_r. reflexivity.
  - destruct fuel as [|fuel]; [cbn in Hfuel; lia|].
    cbn [append split_aux String.length rev_string Nat.sub].
    change (String c (a ++ rest)) with (String c a ++ rest)%string.
    rewrite (Hfree "" (String c a) eq_refl) by discriminate.
    apply IH; [|cbn in Hfuel; lia].
    intros a1 a2 E Hne. apply (Hfree (String c a1) a2); [|exact Hne].
    rewrite E. reflexivity.
Qed.

Lemma prefix_refl_app (k post : string) : String.prefix k (k ++ post) = true.
Proof. apply prefix_spec. exists post. reflexivity. Qed.

Lemma drop_app (k post : string) : drop (String.length k) (k ++ post) = post.
Proof. induction k as [|c k IH]; [destruct post; reflexivity | exact IH]. Qed.

Lemma split_aux_end (fuel : nat) (sep cur : string) :
  split_aux fuel sep cur "" = [rev_string "" cur].
Proof. destruct fuel; reflexivity. Qed.

(** Two pieces around one separator. *)
Lemma split_two (sep a b : string) :
  sep <> "" ->
  (forall a1 a2, a = (a1 ++ a2)%string -> a2 <> "" ->
                 String.prefix sep (a2 ++ sep ++ b) = false) ->
  (forall b1 b2, b = (b1 ++ b2)%string -> b2 <> "" ->
                 String.prefix sep b2 = false) ->
  split sep (a ++ sep ++ b) = [a; b].
Proof.
  intros Hsep Ha Hb. unfold split.
  assert (Hlen : String.length (a ++ sep ++ b)
                 = (String.length a + (String.length sep + String.length b))%nat).
  { rewrite !length_append. reflexivity. }
  assert (Hs : (1 <= String.length sep)%nat).
  { destruct sep; [congruence | cbn; lia]. }
  rewrite split_aux_skip by (exact Ha || lia).
  rewrite rev_string_acc, append_nil_r.
  destruct (S (String.length (a ++ sep ++ b)) - String.length a)%nat
    as [|fuel] eqn:F; [lia|].
  assert (Hnext : split_aux (S fuel) sep (rev_string "" a) (sep ++ b)
                  = rev_string "" (rev_string "" a) :: split_aux fuel sep "" b).
  { destruct sep as [|c sep]; [congruence|].
    cbn [append split_aux].
    change (String c (sep ++ b)) with (String c sep ++ b)%string.
    rewrite prefix_refl_app, drop_app. reflexivity. }
  rewrite Hnext, rev_string_read. cbn [rev_string append]. f_equal.
  rewrite <- (append_nil_r b) at 1.
  rewrite split_aux_skip.
  - rewrite split_aux_end, rev_string_read. reflexivity.
  - intros b1 b2 E Hne. rewrite append_nil_r. exact (Hb b1 b2 E Hne).
  - lia.
Qed.

(** A text without [', '] has no place where the separator starts, also
    when a separator follows it. *)
Lemma comma_free (a rest : string) :
  contains ", " a = false ->
  forall a1 a2, a = (a1 ++ a2)%string -> a2 <> "" ->
                String.prefix ", " (a2 ++ ", " ++ rest) = false.
Proof.
  intros Hfree a1 a2 E Hne.
  destruct (String.prefix ", " (a2 ++ ", " ++ rest)) eqn:P; [|reflexivity].
  exfalso. apply prefix_spec in P. destruct P as [post P].
  destruct a2 as [|x a2]; [congruence|].
  destruct a2 as [|y a2].
  - cbn in P. inversion P.
  - cbn in P. inversion P. subst x y.
    assert (Hc : contains ", " a = true).
    { apply contains_spec. exists a1, a2. exact E. }
    congruence.
Qed.

(** X18. A name of two parts whose second part has two characters and is
    upper-case, and is not one of the codes of the country table, is read
    as a city and a state of the United States: 'Paris, FR' has the state
    'FR' and the country 'United States'. *)
Theorem two_letter_code_is_us_state (city code : string) :
  contains ", " city = false ->
  String.length code = 2%nat ->
  isupper code = true ->
  get code country_mapping = None ->
  parse_location_string (city ++ ", " ++ code)
  = Some {| parsed_city := Some city;
            parsed_state := Some code;
            parsed_country := Some "United States";
            parsed_postal_code := None;
            parsed_full_location := (city ++ ", " ++ code)%string |}.
Proof.
  intros Hcity Hlen Hup Hmap. unfold parse_location_string.
  assert (Hne : nonempty (city ++ ", " ++ code) = true)
    by (destruct city; reflexivity).
  rewrite Hne. cbn [negb]. cbv zeta.
  rewrite (split_two ", " city code).
  - rewrite Hmap, Hlen, Hup. reflexivity.
  - discriminate.
  - apply comma_free. exact Hcity.
  - intros b1 b2 E Hb2.
    destruct (String.prefix ", " b2) eqn:P; [|reflexivity].
    exfalso. apply prefix_spec in P. destruct P as [post P]. subst b2.
    rewrite E in Hlen. rewrite !length_append in Hlen.
    destruct b1; [|cbn in Hlen; lia]. destruct post; [|cbn in Hlen; lia].
    cbn in E. subst code. discriminate.
Qed.

Lemma two_letter_code_is_us_state_witness :
  parse_location_string ("Paris" ++ ", " ++ "FR")
  = Some {| parsed_city := Some "Paris";
            parsed_state := Some "FR";
            parsed_country := Some "United States";
            parsed_postal_code := None;
            parsed_full_location := "Paris, FR" |}.
Proof.
  apply (two_letter_code_is_us_state "Paris" "FR"); reflexivity.
Defined.

(** ** The matcher: what a match consists of *)

Lemma take_app_length (w rest : string) :
  take (String.length (w ++ rest) - String.length rest) (w ++ rest) = w.
Proof.
  rewrite length_append.
  replace (String.length w + String.length rest - String.length rest)%nat
    with (String.length w) by lia.
  induction w as [|c w IH]; cbn [String.length take append].
  - destruct rest; reflexivity.
  - rewrite IH. reflexivity.
Qed.

Section RunSound.
Context {A : Type}.
Variable Q : string -> Prop.

(** A successful run of [r] consumes a text of [lang r]; a capture that it
    hands on satisfies [Q]. *)
Lemma run_sound (r : regex) :
  grp_sound Q r ->
  forall (st : mstate) (k : mstate -> option A) (a : A),
    cap_sat Q st -> run r st k = Some a ->
    exists st' w,
      k st' = Some a
      /\ m_rest st = (w ++ m_rest st')%string
      /\ lang r w
      /\ cap_sat Q st'
      /\ (always_caps r || has_cap st = true -> has_cap st' = true).
Proof.
  induction r as [|p|r1 IH1 r2 IH2|r1 IH1 r2 IH2|r1 IH1|r1 IH1|];
    intros Hg st k a Hcap Hrun; cbn [run] in Hrun.
  - exists st, "". cbn [lang always_caps orb append]. auto.
  - destruct st as [prev rest cap]. cbn [m_rest m_cap] in *.
    destruct rest as [|c s']; [discriminate|].
    destruct (p c) eqn:Hp; [|discriminate].
    exists (MState (Some c) s' cap), (String c "").
    split; [exact Hrun|]. split; [reflexivity|].
    split; [exists c; auto|]. split; [exact Hcap|].
    cbn [always_caps orb]. unfold has_cap. cbn [m_cap]. auto.
  - destruct Hg as [Hg1 Hg2].
    destruct (IH1 Hg1 _ _ _ Hcap Hrun) as [st1 [w1 [Hk1 [E1 [L1 [C1 G1]]]]]].
    destruct (IH2 Hg2 _ _ _ C1 Hk1) as [st2 [w2 [Hk2 [E2 [L2 [C2 G2]]]]]].
    exists st2, (w1 ++ w2)%string. split; [exact Hk2|].
    split; [rewrite E1, E2, append_assoc; reflexivity|].
    split; [exists w1, w2; auto|]. split; [exact C2|].
    cbn [always_caps]. intro H. apply G2.
    destruct (always_caps r2); [reflexivity|]. cbn [orb]. apply G1.
    destruct (always_caps r1); [reflexivity|]. exact H.
  - destruct Hg as [Hg1 Hg2].
    destruct (run r1 st k) as [a1|] eqn:E.
    + apply some_eq in Hrun. subst a1.
      destruct (IH1 Hg1 _ _ _ Hcap E) as [st1 [w1 [Hk1 [E1 [L1 [C1 G1]]]]]].
      exists st1, w1. split; [exact Hk1|]. split; [exact E1|].
      split; [left; exact L1|]. split; [exact C1|].
      cbn [always_caps]. intro H. apply G1.
      destruct (always_caps r1); [reflexivity|]. exact H.
    + destruct (IH2 Hg2 _ _ _ Hcap Hrun) as [st2 [w2 [Hk2 [E2 [L2 [C2 G2]]]]]].
      exists st2, w2. split; [exact Hk2|]. split; [exact E2|].
      split; [right; exact L2|]. split; [exact C2|].
      cbn [always_caps]. intro H. apply G2.
      destruct (always_caps r2); [reflexivity|].
      rewrite andb_false_r in H. exact H.
  - cbn [grp_sound] in Hg.
    revert Hrun. generalize (String.length (m_rest st)) at 1. intro fuel.
    revert st Hcap. induction fuel as [|fuel IHf]; intros st Hcap Hrun.
    + exists st, "". cbn [lang always_caps orb append].
      split; [exact Hrun|]. split; [reflexivity|].
      split; [constructor|]. auto.
    + match type of Hrun with
      | match ?body with _ => _ end = _ => destruct body as [a1|] eqn:E
      end.
      * apply some_eq in Hrun. subst a1.
        destruct (IH1 Hg _ _ _ Hcap E) as [st1 [w1 [Hk1 [E1 [L1 [C1 G1]]]]]].
        destruct (String.length (m_rest st1) <? String.length (m_rest st))%nat;
          [|discriminate].
        destruct (IHf st1 C1 Hk1) as [st2 [w2 [Hk2 [E2 [L2 [C2 G2]]]]]].
        exists st2, (w1 ++ w2)%string. split; [exact Hk2|].
        split; [rewrite E1, E2, append_assoc; reflexivity|].
        split; [exact (star_app _ w1 w2 L1 L2)|]. split; [exact C2|].
        cbn [always_caps orb] in *. intro H. apply G2, G1.
        rewrite H. apply orb_true_r.
      * exists st, "". cbn [lang always_caps orb append].
        split; [exact Hrun|]. split; [reflexivity|].
        split; [constructor|]. auto.
  - destruct Hg as [Hq Hg1].
    destruct (IH1 Hg1 _ _ _ Hcap Hrun) as [st1 [w1 [Hk1 [E1 [L1 [C1 G1]]]]]].
    eexists. exists w1. split; [exact Hk1|]. cbn [m_rest lang].
    split; [exact E1|]. split; [exact L1|].
    unfold cap_sat, has_cap. cbn [m_cap].
    split; [|reflexivity].
    rewrite E1, take_app_length. exact (Hq w1 L1).
  - destruct (xorb (word_of (m_prev st)) (word_of (head_char (m_rest st))));
      [|discriminate].
    exists st, "". cbn [lang always_caps orb append]. auto.
Qed.

End RunSound.

(** A match at a place: the text matched, and the group captured. *)
Lemma match_at_sound (Q : string -> Prop) (r : regex) (prev : option ascii)
  (s : string) (st : mstate) :
  grp_sound Q r -> match_at r prev s = Some st ->
  exists w,
    s = (w ++ m_rest st)%string /\ lang r w /\ cap_sat Q st
    /\ (always_caps r = true -> has_cap st = true).
Proof.
  intros Hg Hm. unfold match_at in Hm.
  destruct (run_sound Q r Hg (MState prev s None) _ st I Hm)
    as [st' [w [Hk [E [L [C G]]]]]].
  apply some_eq in Hk. subst st'. exists w. cbn [m_rest] in E.
  split; [exact E|]. split; [exact L|]. split; [exact C|].
  intro H. apply G. rewrite H. reflexivity.
Qed.


Lemma contains_app_l (m p t : string) :
  contains m t = true -> contains m (p ++ t) = true.
Proof.
  intro H. apply contains_spec in H. destruct H as [pre [post ->]].
  apply contains_spec. exists (p ++ pre)%string, post.
  rewrite append_assoc. reflexivity.
Qed.

Lemma contains_prefix (m rest : string) : contains m (m ++ rest) = true.
Proof. apply contains_spec. exists "", rest. reflexivity. Qed.

(** Every item of [findall] for a pattern without a group is a text of
    the pattern, and stands in the text searched. *)
Lemma findall_whole (r : regex) (s : string) :
  grp_sound (fun _ => False) r ->
  Forall (fun m => lang r m /\ contains m s = true) (findall r s).
Proof.
  intros Hg. unfold findall.
  generalize (S (String.length s)) as fuel. generalize (@None ascii) as prev.
  intros prev fuel. revert prev s.
  induction fuel as [|fuel IH]; intros prev s; cbn [findall_from].
  - constructor.
  - assert (Hskip : Forall (fun m => lang r m /\ contains m s = true)
                      match s with
                      | EmptyString => []
                      | String c s' => findall_from fuel r (Some c) s'
                      end).
    { destruct s as [|c s']; [constructor|].
      eapply Forall_impl; [|apply (IH (Some c) s')].
      cbv beta. intros m [Hl Hc]. split; [exact Hl|].
      exact (contains_app_l m (String c "") s' Hc). }
    destruct (match_at r prev s) as [st|] eqn:E; [|exact Hskip].
    destruct (match_at_sound _ r prev s st Hg E) as [w [Es [L [C _]]]].
    unfold cap_sat in C. destruct (m_cap st) as [g|]; [destruct C|].
    assert (Hw : take (String.length s - String.length (m_rest st)) s = w).
    { rewrite Es at 1 2. apply take_app_length. }
    rewrite Hw.
    assert (Hin : contains w s = true) by (rewrite Es; apply contains_prefix).
    destruct (String.length (m_rest st) <? String.length s)%nat;
      constructor; auto.
    eapply Forall_impl; [|apply (IH (m_prev st) (m_rest st))].
    cbv beta. intros m [Hl Hc]. split; [exact Hl|].
    rewrite Es. exact (contains_app_l m w (m_rest st) Hc).
Qed.

Lemma star_all_chars (p : ascii -> bool) (w : string) :
  star (lang (Cls p)) w -> all_chars p w = true.
Proof.
  induction 1 as [|w1 w2 [c [-> Hp]] _ IH]; [reflexivity|].
  cbn [append all_chars]. rewrite Hp, IH. reflexivity.
Qed.

Lemma plus_all_chars (p : ascii -> bool) (w : string) :
  lang (Plus (Cls p)) w -> w <> "" /\ all_chars p w = true.
Proof.
  intros [w1 [w2 [-> [[c [-> Hp]] Hs]]]].
  split; [discriminate|].
  cbn [append all_chars]. rewrite Hp, (star_all_chars p w2 Hs). reflexivity.
Qed.


(** ** Contact details in the bio *)

Lemma lang_chr (c : ascii) (w : string) : lang (Chr c) w -> w = String c "".
Proof.
  intros [x [-> Hx]]. apply Ascii.eqb_eq in Hx. subst. reflexivity.
Qed.

Lemma all_chars_app (p : ascii -> bool) (a b : string) :
  all_chars p (a ++ b) = all_chars p a && all_chars p b.
Proof.
  induction a as [|c a IH]; [reflexivity|].
  cbn [append all_chars]. rewrite IH, andb_assoc. reflexivity.
Qed.

(** [r{n}] and [r{lo,hi}] of a character class: so many characters of the
    class. *)
Lemma lang_times (p : ascii -> bool) (n : nat) (w : string) :
  lang (Times n (Cls p)) w -> String.length w = n /\ all_chars p w = true.
Proof.
  revert w. induction n as [|n IH]; intros w; cbn [Times lang].
  - intros ->. auto.
  - intros [w1 [w2 [-> [[c [-> Hc]] H2]]]]. destruct (IH w2 H2) as [Hl Ha].
    cbn [append String.length all_chars]. rewrite Hl, Hc, Ha. auto.
Qed.



Lemma first_item_whole (r : regex) (s m : string) (rest : list string) :
  grp_sound (fun _ => False) r ->
  findall r s = m :: rest -> lang r m /\ contains m s = true.
Proof.
  intros Hg E. pose proof (findall_whole r s Hg) as H. rewrite E in H.
  inversion H. assumption.
Qed.

(** X20. An address that [extract_email] returns stands in the text and
    has the shape local@domain.tld: a local part of letters, digits and
    the marks . _ % + -, a domain of letters, digits, dots and hyphens,
    neither of them empty, and after a dot at least two characters that are
    letters or the bar that the class [A-Z|a-z] lets through. So a text
    without '@' has no address. *)
Theorem extract_email_shape (text e : string) :
  extract_email text = Some e ->
  contains e text = true
  /\ contains "@" text = true
  /\ exists local domain tld,
       e = (local ++ "@" ++ domain ++ "." ++ tld)%string
       /\ local <> "" /\ all_chars is_email_local local = true
       /\ domain <> "" /\ all_chars is_email_domain domain = true
       /\ (2 <= String.length tld)%nat /\ all_chars is_email_tld tld = true.
Proof.
  unfold extract_email. destruct (nonempty text); cbn [negb]; [|discriminate].
  destruct (findall email_pattern text) as [|m rest] eqn:F; [discriminate|].
  intro H. apply some_eq in H. subst m.
  destruct (first_item_whole email_pattern text e rest) as [L Hin];
    [cbn; tauto | exact F |].
  unfold email_pattern in L. cbn [Seqs] in L.
  destruct L as [w0 [r0 [-> [E0 L]]]]. cbn [lang] in E0. subst w0.
  destruct L as [local [r1 [-> [Hlocal L]]]].
  destruct L as [at_sign [r2 [-> [Hat L]]]]. apply lang_chr in Hat. subst at_sign.
  destruct L as [domain [r3 [-> [Hdomain L]]]].
  destruct L as [dot [r4 [-> [Hdot L]]]]. apply lang_chr in Hdot. subst dot.
  destruct L as [t2 [r5 [-> [Ht2 L]]]].
  destruct L as [ts [r6 [-> [Hts E6]]]]. cbn [lang] in E6. subst r6.
  destruct (plus_all_chars _ _ Hlocal) as [Nl Al].
  destruct (plus_all_chars _ _ Hdomain) as [Nd Ad].
  destruct (lang_times _ _ _ Ht2) as [Lt At].
  pose proof (star_all_chars _ _ Hts) as As.
  cbn [append] in Hin |- *. rewrite append_nil_r in *.
  split; [exact Hin|]. split.
  - apply contains_spec in Hin. destruct Hin as [pre [post ->]].
    apply contains_spec.
    exists (pre ++ local)%string,
           (domain ++ String "." (t2 ++ ts) ++ post)%string.
    repeat (progress (rewrite ?append_assoc; cbn [append])). reflexivity.
  - exists local, domain, (t2 ++ ts)%string.
    rewrite length_append, all_chars_app, At, As.
    repeat split; auto. lia.
Qed.

Lemma extract_email_shape_witness :
  extract_email "mail me: anna@example.com now" = Some "anna@example.com"
  /\ contains "@" "mail me: anna@example.com now" = true.
Proof.
  assert (H : extract_email "mail me: anna@example.com now"
              = Some "anna@example.com") by (vm_compute; reflexivity).
  split; [exact H|].
  exact (proj1 (proj2 (extract_email_shape _ _ H))).
Defined.
















